(** * News classifier: keyword knowledge base, weighted vocabulary,
      TF-IDF scorer, context scorer and the classification routine.

    Shallow embedding of [newsClassifier.ts].

    Numbers.  A JavaScript [number] is modelled by [num]: a real number or
    one of the three IEEE special values (+Infinity, -Infinity, NaN).
    Finite arithmetic is exact (rounding and overflow are abstracted away)
    and there is a single zero (the sign of zero is not tracked); the
    special values follow IEEE 754 as ECMAScript prescribes.  Counters that
    only ever hold small natural numbers (array lengths, word frequencies,
    match counts) are [nat] and are injected with [ofNat] where the source
    uses them in arithmetic.

    Strings.  A JavaScript string is modelled by [string], each character
    being a code unit below 256 (Latin-1). *)

From Stdlib Require Import Reals Lra Ascii String Sorted Permutation.
From stdpp Require Import gmap strings list fin_maps.

Local Open Scope R_scope.

(** ** JavaScript numbers *)

Inductive num : Type :=
  | Fin (r : R)
  | PInf
  | NInf
  | NaN.

Definition ofNat (n : nat) : num := Fin (INR n).

(** [signed_inf pos r]: the product of an infinity (positive when [pos]) by
    the sign of the finite [r]; infinity times zero is NaN. *)
Definition signed_inf (pos : bool) (r : R) : num :=
  if Rlt_dec 0 r then (if pos then PInf else NInf)
  else if Rlt_dec r 0 then (if pos then NInf else PInf)
  else NaN.

Definition nadd (x y : num) : num :=
  match x, y with
  | NaN, _ | _, NaN => NaN
  | Fin a, Fin b => Fin (a + b)
  | PInf, NInf | NInf, PInf => NaN
  | PInf, _ | _, PInf => PInf
  | NInf, _ | _, NInf => NInf
  end.

Definition nneg (x : num) : num :=
  match x with
  | Fin a => Fin (- a)
  | PInf => NInf
  | NInf => PInf
  | NaN => NaN
  end.

Definition nsub (x y : num) : num := nadd x (nneg y).

Definition nmul (x y : num) : num :=
  match x, y with
  | NaN, _ | _, NaN => NaN
  | Fin a, Fin b => Fin (a * b)
  | PInf, Fin b | Fin b, PInf => signed_inf true b
  | NInf, Fin b | Fin b, NInf => signed_inf false b
  | PInf, PInf | NInf, NInf => PInf
  | PInf, NInf | NInf, PInf => NInf
  end.

Definition ndiv (x y : num) : num :=
  match x, y with
  | NaN, _ | _, NaN => NaN
  | Fin a, Fin b =>
      if Req_dec_T b 0 then signed_inf true a else Fin (a / b)
  | Fin _, (PInf | NInf) => Fin 0
  | PInf, Fin b => if Rlt_dec b 0 then NInf else PInf
  | NInf, Fin b => if Rlt_dec b 0 then PInf else NInf
  | (PInf | NInf), (PInf | NInf) => NaN
  end.

(** [Math.log] *)
Definition Math_log (x : num) : num :=
  match x with
  | NaN | NInf => NaN
  | PInf => PInf
  | Fin a =>
      if Rlt_dec a 0 then NaN
      else if Req_dec_T a 0 then NInf
      else Fin (ln a)
  end.

(** [x > y] *)
Definition ngt (x y : num) : bool :=
  match x, y with
  | NaN, _ | _, NaN => false
  | Fin a, Fin b => if Rlt_dec b a then true else false
  | PInf, (Fin _ | NInf) => true
  | Fin _, NInf => true
  | _, _ => false
  end.

Definition nlt (x y : num) : bool := ngt y x.

(** The larger of two numbers, NaN being contagious. *)
Definition max2 (x y : num) : num :=
  match x, y with
  | NaN, _ | _, NaN => NaN
  | _, _ => if ngt y x then y else x
  end.

(** [Math.max(...xs)]: -Infinity for no argument. *)
Definition Math_max (xs : list num) : num := fold_left max2 xs NInf.

(** [Math.min(x, y)] *)
Definition Math_min (x y : num) : num :=
  match x, y with
  | NaN, _ | _, NaN => NaN
  | _, _ => if nlt y x then y else x
  end.

(** Truthiness of a number: zero and NaN are falsy. *)
Definition truthy (x : num) : bool :=
  match x with
  | NaN => false
  | Fin a => if Req_dec_T a 0 then false else true
  | _ => true
  end.

(** [m.get(k) || d] for a map of numbers. *)
Definition get_or (o : option num) (d : num) : num :=
  match o with
  | Some v => if truthy v then v else d
  | None => d
  end.

(** [m.get(k) || d] for a map of counters. *)
Definition get_or_nat (o : option nat) (d : nat) : nat :=
  match o with
  | Some (S n) => S n
  | _ => d
  end.

(** ** Strings *)

Local Open Scope string_scope.

Definition code (c : ascii) : nat := nat_of_ascii c.

Definition between (lo hi n : nat) : bool := (lo <=? n)%nat && (n <=? hi)%nat.

(** [String.prototype.toLowerCase] on code units below 256. *)
Definition lowerChar (c : ascii) : ascii :=
  let n := code c in
  if between 65 90 n || (between 192 222 n && negb (n =? 215)%nat)
  then ascii_of_nat (n + 32) else c.

Fixpoint toLowerCase (s : string) : string :=
  match s with
  | EmptyString => EmptyString
  | String c s' => String (lowerChar c) (toLowerCase s')
  end.

(** The regular-expression classes [\w] and [\s]. *)
Definition isWordChar (c : ascii) : bool :=
  let n := code c in
  between 48 57 n || between 65 90 n || (n =? 95)%nat || between 97 122 n.

Definition isSpaceChar (c : ascii) : bool :=
  let n := code c in
  between 9 13 n || (n =? 32)%nat || (n =? 160)%nat.

(** [s.replace(/[^\w\s]/g, ' ')] *)
Fixpoint replaceNonWord (s : string) : string :=
  match s with
  | EmptyString => EmptyString
  | String c s' =>
      String (if isWordChar c || isSpaceChar c then c else " "%char)
             (replaceNonWord s')
  end.

Definition snoc (s : string) (c : ascii) : string :=
  String.append s (String c EmptyString).

(** [s.split(/\s+/)]: [cur] is the piece being read, [insep] tells that the
    previous character belonged to a separator run. *)
Fixpoint splitWs_go (s : string) (cur : string) (insep : bool) : list string :=
  match s with
  | EmptyString => [cur]
  | String c s' =>
      if isSpaceChar c
      then (if insep then splitWs_go s' EmptyString true
            else cur :: splitWs_go s' EmptyString true)
      else splitWs_go s' (snoc cur c) false
  end.

Definition splitWs (s : string) : list string := splitWs_go s EmptyString false.

(** [s.split(' ')] *)
Fixpoint splitSpace_go (s : string) (cur : string) : list string :=
  match s with
  | EmptyString => [cur]
  | String c s' =>
      if Ascii.eqb c " "%char
      then cur :: splitSpace_go s' EmptyString
      else splitSpace_go s' (snoc cur c)
  end.

Definition splitSpace (s : string) : list string := splitSpace_go s EmptyString.

(** [s.includes(t)] *)
Fixpoint includes (s t : string) : bool :=
  String.prefix t s
  || match s with
     | EmptyString => false
     | String _ s' => includes s' t
     end.

(** [preprocessText] *)
Definition preprocessText (text : string) : list string :=
  List.filter (fun word => (1 <? String.length word)%nat)
    (splitWs (replaceNonWord (toLowerCase text))).

(** ** The keyword knowledge base *)

(** A category's keyword group.  Every group of the source declares
    [primary] first, [secondary] second, and then its own term classes;
    [Object_entries] lists them in that declaration order. *)
Record Keywords : Type := {
  primary : list string;
  secondary : list string;
  others : list (string * list string)
}.

Definition Object_entries (k : Keywords) : list (string * list string) :=
  ("primary", primary k) :: ("secondary", secondary k) :: others k.

Definition Object_values (k : Keywords) : list (list string) :=
  map snd (Object_entries k).

Definition categoryKeywords : list (string * Keywords) := [
  ("Technology", {|
    primary := ["ai"; "technology"; "software"; "digital"; "cyber"; "tech"; "computer"; "internet"; "blockchain"; "robot"; "code"];
    secondary := ["innovation"; "startup"; "device"; "app"; "mobile"; "data"; "cloud"; "programming"; "algorithm"; "developer"];
    others := [
      ("companies", ["google"; "apple"; "microsoft"; "amazon"; "meta"; "tesla"; "nvidia"; "intel"; "ibm"; "oracle"]);
      ("concepts", ["artificial intelligence"; "machine learning"; "virtual reality"; "augmented reality"; "cryptocurrency"; "5g"; "quantum computing"; "cybersecurity"]);
      ("products", ["iphone"; "android"; "windows"; "linux"; "ios"; "web3"; "neural network"]) ] |});
  ("Business", {|
    primary := ["business"; "market"; "economy"; "finance"; "trade"; "investment"; "stock"; "revenue"; "profit"];
    secondary := ["startup"; "company"; "industry"; "corporate"; "enterprise"; "merger"; "acquisition"; "venture"];
    others := [
      ("financial", ["nasdaq"; "dow jones"; "sp500"; "wall street"; "ipo"; "earnings"; "shares"; "dividend"; "portfolio"]);
      ("concepts", ["quarterly report"; "market analysis"; "economic growth"; "fiscal policy"; "monetary policy"; "inflation"; "recession"]);
      ("sectors", ["banking"; "retail"; "manufacturing"; "real estate"; "energy"; "automotive"]) ] |});
  ("Politics", {|
    primary := ["politics"; "government"; "election"; "policy"; "congress"; "senate"; "democrat"; "republican"; "parliament"];
    secondary := ["legislation"; "vote"; "campaign"; "political"; "president"; "administration"; "diplomatic"; "governor"];
    others := [
      ("international", ["foreign policy"; "international relations"; "diplomacy"; "treaty"; "sanctions"; "united nations"; "eu"]);
      ("concepts", ["democracy"; "constitution"; "bipartisan"; "legislative"; "judiciary"; "executive order"]);
      ("events", ["summit"; "referendum"; "inauguration"; "impeachment"; "coalition"]) ] |});
  ("Sports", {|
    primary := ["sports"; "game"; "team"; "player"; "championship"; "tournament"; "match"; "score"; "athlete"];
    secondary := ["win"; "lose"; "victory"; "defeat"; "season"; "league"; "coach"; "stadium"; "record"];
    others := [
      ("leagues", ["nfl"; "nba"; "mlb"; "nhl"; "fifa"; "uefa"; "olympics"; "premier league"; "formula 1"]);
      ("concepts", ["world cup"; "super bowl"; "playoffs"; "final four"; "grand slam"; "medal"; "draft"]);
      ("roles", ["quarterback"; "striker"; "pitcher"; "defender"; "manager"; "referee"]) ] |});
  ("Entertainment", {|
    primary := ["entertainment"; "movie"; "film"; "music"; "celebrity"; "actor"; "actress"; "star"; "director"];
    secondary := ["hollywood"; "tv"; "show"; "series"; "album"; "concert"; "award"; "performance"; "cast"];
    others := [
      ("events", ["oscar"; "grammy"; "emmy"; "golden globe"; "festival"; "premiere"; "red carpet"]);
      ("concepts", ["box office"; "streaming"; "rating"; "review"; "debut"; "sequel"; "franchise"]);
      ("platforms", ["netflix"; "disney"; "hbo"; "spotify"; "amazon prime"; "hulu"]) ] |});
  ("Health", {|
    primary := ["health"; "medical"; "disease"; "treatment"; "patient"; "doctor"; "hospital"; "medicine"; "clinic"];
    secondary := ["research"; "study"; "clinical"; "therapy"; "vaccine"; "drug"; "pharmaceutical"; "diagnosis"];
    others := [
      ("conditions", ["cancer"; "diabetes"; "heart disease"; "obesity"; "mental health"; "alzheimer"; "covid"]);
      ("concepts", ["public health"; "healthcare"; "medical research"; "clinical trial"; "prevention"; "wellness"]);
      ("specialists", ["surgeon"; "physician"; "nurse"; "pediatrician"; "psychiatrist"]) ] |});
  ("Science", {|
    primary := ["science"; "research"; "study"; "discovery"; "scientist"; "experiment"; "theory"; "evidence"; "laboratory"];
    secondary := ["scientific"; "physics"; "chemistry"; "biology"; "astronomy"; "climate"; "evolution"; "genome"];
    others := [
      ("fields", ["quantum"; "molecular"; "genetic"; "environmental"; "neuroscience"; "biochemistry"; "astrophysics"]);
      ("concepts", ["peer review"; "scientific method"; "breakthrough"; "hypothesis"; "observation"; "data analysis"]);
      ("institutions", ["nasa"; "cern"; "university"; "laboratory"; "institute"]) ] |})
].

(** ** Exceptions *)

(** The only exception the module can raise is the [TypeError] of reading a
    property of [undefined]. *)
Inductive exn : Type := TypeError.

Inductive outcome (A : Type) : Type :=
  | Ok (a : A)
  | Throw (e : exn).

Arguments Ok {A} a.
Arguments Throw {A} e.

Definition bind {A B : Type} (m : outcome A) (k : A -> outcome B) : outcome B :=
  match m with
  | Ok a => k a
  | Throw e => Throw e
  end.

Notation "'let*' x ':=' m 'in' k" := (bind m (fun x => k))
  (at level 10, x pattern, m at level 100, k at level 200).

(** [xs.forEach(x => ...)] over a body that may throw, threading the state
    the body mutates. *)
Fixpoint forEachM {A S : Type} (body : S -> A -> outcome S) (xs : list A) (s : S)
  : outcome S :=
  match xs with
  | [] => Ok s
  | x :: xs' => let* s' := body s x in forEachM body xs' s'
  end.

(** [obj[key]] on the knowledge base. *)
Fixpoint getProperty (kb : list (string * Keywords)) (key : string)
  : option Keywords :=
  match kb with
  | [] => None
  | (k, v) :: kb' => if String.eqb k key then Some v else getProperty kb' key
  end.

Definition Object_keys (kb : list (string * Keywords)) : list string := map fst kb.

(** ** The weighted vocabulary *)

(** [keyword.split(' ').forEach(word => vocab.set(word.toLowerCase(), w))] *)
Definition setWords (w : num) (vocab : gmap string num) (keyword : string)
  : gmap string num :=
  fold_left (fun v word => <[toLowerCase word := w]> v) (splitSpace keyword) vocab.

(** The same loop under the guard [!vocab.has(word.toLowerCase())]. *)
Definition setWordsIfAbsent (w : num) (vocab : gmap string num) (term : string)
  : gmap string num :=
  fold_left
    (fun v word =>
       match v !! toLowerCase word with
       | Some _ => v
       | None => <[toLowerCase word := w]> v
       end)
    (splitSpace term) vocab.

Definition isPrimaryOrSecondary (key : string) : bool :=
  existsb (String.eqb key) ["primary"; "secondary"].

(** The body of the loop over the categories. *)
Definition addCategory (vocab : gmap string num) (category : Keywords)
  : gmap string num :=
  let vocab := fold_left (setWords (Fin 3.0)) (primary category) vocab in
  let vocab := fold_left (setWords (Fin 2.0)) (secondary category) vocab in
  fold_left
    (fun v '(key, terms) =>
       if negb (isPrimaryOrSecondary key)
       then fold_left (setWordsIfAbsent (Fin 1.5)) terms v
       else v)
    (Object_entries category) vocab.

Definition vocabularyOf (kb : list (string * Keywords)) : gmap string num :=
  fold_left addCategory (map snd kb) ∅.

Definition createWeightedVocabulary : gmap string num :=
  vocabularyOf categoryKeywords.

Definition weightedVocabulary : gmap string num := createWeightedVocabulary.

(** The vocabulary is a large closed term: conversion unfolds it last. *)
Strategy 1000 [categoryKeywords weightedVocabulary createWeightedVocabulary].

(** [weightedVocabulary.get(word) || 1.0] *)
Definition vocabularyWeight (word : string) : num :=
  get_or (weightedVocabulary !! word) (Fin 1.0).

(** ** The weighted TF-IDF scorer *)

(** [words.forEach(word => wordFreq.set(word, (wordFreq.get(word) || 0) + 1))] *)
Definition countWords (words : list string) : gmap string nat :=
  fold_left
    (fun wordFreq word => <[word := (get_or_nat (wordFreq !! word) 0 + 1)%nat]> wordFreq)
    words ∅.

(** The score the second loop stores for a word of frequency [freq]. *)
Definition weightedScore (nwords : nat) (word : string) (freq : nat) : num :=
  let wordWeight := vocabularyWeight word in
  let tf := ndiv (ofNat freq) (ofNat nwords) in
  let idf :=
    Math_log (nadd (Fin 1)
                (ndiv (ofNat (size weightedVocabulary))
                   (nadd (Fin 1) (if (0 <? freq)%nat then Fin 1 else Fin 0)))) in
  nmul (nmul tf idf) wordWeight.

Definition calculateWeightedTfIdf (text : string) : gmap string num :=
  let words := preprocessText text in
  let wordFreq := countWords words in
  map_imap (fun word freq => Some (weightedScore (length words) word freq)) wordFreq.

(** ** The semantic similarity scorer *)

(** The innermost loop body: the pair is ([similarity], [totalWeight]). *)
Definition addWord (textScores : gmap string num) (acc : num * num) (word : string)
  : num * num :=
  let wordScore := get_or (textScores !! word) (Fin 0) in
  let wordWeight := vocabularyWeight word in
  (nadd (fst acc) (nmul wordScore wordWeight), nadd (snd acc) wordWeight).

Definition addTerm (textScores : gmap string num) (acc : num * num) (term : string)
  : num * num :=
  fold_left (addWord textScores) (preprocessText term) acc.

Definition accumulateSimilarity (textScores : gmap string num) (k : Keywords)
  : num * num :=
  fold_left (fun acc terms => fold_left (addTerm textScores) terms acc)
    (Object_values k) (Fin 0, Fin 0).

Definition calculateSemanticSimilarity (textScores : gmap string num)
  (category : string) : outcome num :=
  match getProperty categoryKeywords category with
  | None => Throw TypeError
  | Some k =>
      let '(similarity, totalWeight) := accumulateSimilarity textScores k in
      Ok (if ngt totalWeight (Fin 0) then ndiv similarity totalWeight else Fin 0)
  end.

(** ** The context pattern scorer *)

Definition matchWeight (type : string) : nat :=
  if String.eqb type "primary" then 4
  else if String.eqb type "secondary" then 3 else 2.

(** The loop over a category's terms: the pair is ([score], [matches]). *)
Definition scanTerm (text type : string) (acc : nat * nat) (term : string)
  : nat * nat :=
  if includes (toLowerCase text) (toLowerCase term)
  then ((fst acc + matchWeight type)%nat, S (snd acc))
  else acc.

Definition scanKeywords (text : string) (keywords : Keywords) : nat * nat :=
  fold_left (fun acc '(type, terms) => fold_left (scanTerm text type) terms acc)
    (Object_entries keywords) (0%nat, 0%nat).

Definition finalScore (score matches textLength : nat) : num :=
  let density := ndiv (ofNat matches) (ofNat textLength) in
  ndiv (nmul (ofNat score) (nadd (Fin 1) density))
       (nadd (Fin 1) (Math_log (nadd (Fin 1) (ofNat textLength)))).

Definition analyzeContextPatterns (text : string) : gmap string num :=
  let words := preprocessText text in
  let textLength := length words in
  fold_left
    (fun scores '(category, keywords) =>
       let '(score, matches) := scanKeywords text keywords in
       <[category := finalScore score matches textLength]> scores)
    categoryKeywords ∅.

(** ** The classifier *)

Record Prediction : Type := {
  category : string;
  confidence : num
}.

Record Classification : Type := {
  top_category : string;
  top_confidence : num;
  predictions : list Prediction
}.

(** [predictions.set(k, v)] on an insertion-ordered [Map]: an existing key
    keeps its place, a new key goes last. *)
Fixpoint Map_set (m : list (string * num)) (k : string) (v : num)
  : list (string * num) :=
  match m with
  | [] => [(k, v)]
  | (k', v') :: m' =>
      if String.eqb k' k then (k', v) :: m' else (k', v') :: Map_set m' k v
  end.

(** The comparator [(a, b) => b.confidence - a.confidence]. *)
Definition compareFn (a b : Prediction) : num :=
  nsub (confidence b) (confidence a).

(** [Array.prototype.sort(comparefn)].  ECMAScript requires the sort to be
    stable, and treats a NaN returned by the comparator as 0.  For a
    consistent comparator every conforming sort returns the list computed
    here by stable insertion; for an inconsistent one the standard leaves
    the order to the implementation.  [comesAfter cmp y x]: the comparator
    puts [y] after [x]. *)
Definition comesAfter (cmp : Prediction -> Prediction -> num) (y x : Prediction)
  : bool := ngt (cmp y x) (Fin 0).

Fixpoint insertSorted (cmp : Prediction -> Prediction -> num) (x : Prediction)
  (sorted : list Prediction) : list Prediction :=
  match sorted with
  | [] => [x]
  | y :: rest =>
      if comesAfter cmp y x then x :: y :: rest
      else y :: insertSorted cmp x rest
  end.

Definition Array_sort (cmp : Prediction -> Prediction -> num)
  (xs : list Prediction) : list Prediction :=
  fold_left (fun sorted x => insertSorted cmp x sorted) xs [].

Definition combinedScores (text : string) : outcome (list (string * num)) :=
  let textScores := calculateWeightedTfIdf text in
  let contextScores := analyzeContextPatterns text in
  forEachM
    (fun predictions category =>
       let* semanticScore := calculateSemanticSimilarity textScores category in
       let contextScore := get_or (contextScores !! category) (Fin 0) in
       let combinedScore :=
         nadd (nmul semanticScore (Fin 0.6)) (nmul contextScore (Fin 0.4)) in
       Ok (Map_set predictions category combinedScore))
    (Object_keys categoryKeywords) [].

Definition normalize (maxScore : num) (entry : string * num) : Prediction :=
  {| category := fst entry;
     confidence := Math_min (nmul (ndiv (snd entry) maxScore) (Fin 100)) (Fin 100) |}.

Definition classifyNews (text : string) : outcome Classification :=
  let* predictions := combinedScores text in
  let maxScore := Math_max (map snd predictions) in
  let normalizedPredictions :=
    Array_sort compareFn (map (normalize maxScore) predictions) in
  match normalizedPredictions with
  | [] => Throw TypeError
  | top :: _ =>
      Ok {| top_category := category top;
            top_confidence := confidence top;
            predictions := normalizedPredictions |}
  end.

(** ** The classification handler of the home page *)

(** [String.prototype.trim]: the characters stripped at both ends are the
    white space and line terminators, the class [\s]. *)
Fixpoint trimStart (s : string) : string :=
  match s with
  | EmptyString => EmptyString
  | String c s' => if isSpaceChar c then trimStart s' else s
  end.

Fixpoint trimEnd (s : string) : string :=
  match s with
  | EmptyString => EmptyString
  | String c s' =>
      match trimEnd s' with
      | EmptyString => if isSpaceChar c then EmptyString else String c EmptyString
      | t => String c t
      end
  end.

Definition trim (s : string) : string := trimEnd (trimStart s).

(** Truthiness of a string: the empty string is falsy. *)
Definition truthyString (s : string) : bool :=
  match s with
  | EmptyString => false
  | _ => true
  end.

(** The part of the component state the handler reads and writes. *)
Record HomeState : Type := {
  classificationText : string;
  classificationResult : option Classification;
  isClassifying : bool;
  error : option string
}.

(** [classifyNewsText]: the state after the handler has run.  [message]
    gives the text the engine attaches to an exception. *)
Definition classifyNewsText (message : exn -> string) (st : HomeState) : HomeState :=
  if negb (truthyString (trim (classificationText st))) || isClassifying st
  then st
  else
    (* setIsClassifying(true); setError(null) *)
    let st1 := {| classificationText := classificationText st;
                  classificationResult := classificationResult st;
                  isClassifying := true;
                  error := None |} in
    let st2 :=
      match classifyNews (classificationText st1) with
      | Ok result =>
          {| classificationText := classificationText st1;
             classificationResult := Some result;
             isClassifying := isClassifying st1;
             error := error st1 |}
      | Throw e =>
          {| classificationText := classificationText st1;
             classificationResult := classificationResult st1;
             isClassifying := isClassifying st1;
             error := Some (String.append "Classification failed: " (message e)) |}
      end in
    (* finally: setIsClassifying(false) *)
    {| classificationText := classificationText st2;
       classificationResult := classificationResult st2;
       isClassifying := false;
       error := error st2 |}.

(** ** The news API client *)

(** The body of a response: [status], [message] and [articles] may be
    missing; [articles] is [None] when it is not an array, and an element
    of the array is [None] when it is [null] or no object. *)
Record RawSource : Type := {
  source_id : option string;
  source_name : option string
}.

Record RawArticle : Type := {
  raw_source : option RawSource;
  raw_title : option string;
  raw_description : option string;
  raw_url : option string;
  raw_urlToImage : option string;
  raw_publishedAt : option string
}.

Record Data : Type := {
  data_status : option string;
  data_message : option string;
  data_articles : option (list (option RawArticle))
}.

(** What an axios error carries: [response?.status], [code] and
    [response?.data?.message]. *)
Record AxiosErr : Type := {
  response_status : option nat;
  err_code : option string;
  response_message : option string
}.

(** [axios.get] answers with a response, whose [data] is [None] when it is
    falsy or no object, or rejects with an axios error. *)
Inductive AxiosResult : Type :=
  | Response (data : option Data)
  | Failure (e : AxiosErr).

(** The values the client throws: an axios error, an [Error] made with a
    message, an exception of the engine, or [undefined]. *)
Inductive Thrown : Type :=
  | AxiosError (e : AxiosErr)
  | PlainError (message : string)
  | NativeError (e : exn)
  | ThrownUndefined.

(** What the client does to the outside: requests and waits. *)
Inductive Event : Type :=
  | Requested (finalUrl : string)
  | Delayed (ms : nat).

(** The articles handed to the pages. *)
Record Article : Type := {
  title : string;
  description : string;
  urlToImage : string;
  article_category : string;
  url : option string;
  source : string;
  publishedAt : option string
}.

Definition CORS_PROXIES : list string :=
  ["https://api.allorigins.win/raw?url=";
   "https://api.codetabs.com/v1/proxy?quest=";
   "https://corsproxy.io/?"].

Definition NEWS_API_BASE_URL : string := "https://newsapi.org/v2".

(** Truthiness of a string that may be missing. *)
Definition truthyOpt (o : option string) : bool :=
  match o with
  | Some s => truthyString s
  | None => false
  end.

(** [s || d] on a string that may be missing. *)
Definition string_or (o : option string) (d : string) : string :=
  match o with
  | Some s => if truthyString s then s else d
  | None => d
  end.

(** [error.response?.status === n] and [error.code === c]. *)
Definition statusIs (e : AxiosErr) (n : nat) : bool :=
  match response_status e with
  | Some s => (s =? n)%nat
  | None => false
  end.

Definition codeIs (e : AxiosErr) (c : string) : bool :=
  match err_code e with
  | Some s => String.eqb s c
  | None => false
  end.

(** The state of [fetchWithRetryAndFallback]: the number of requests made,
    the events so far and [lastError]. *)
Record RetryState : Type := {
  requests : nat;
  events : list Event;
  lastError : Thrown
}.

(** How one pass of the inner loop ends: with the function returning,
    throwing, or going on to the next pass. *)
Inductive Attempt : Type :=
  | Returned (data : Data) (st : RetryState)
  | Raised (error : Thrown) (st : RetryState)
  | Next (st : RetryState).

(** How the function ends. *)
Inductive Fetched : Type :=
  | Resolved (data : Data) (st : RetryState)
  | Rejected (error : Thrown) (st : RetryState).

Section NewsApi.

(** The network: the answer to the [n]-th request of a run, sent to a
    given address.  Then the values the module takes from its
    environment: the encoding of a URL component, the API key, and the
    message the engine attaches to an exception. *)
Variable axios_get : nat -> string -> AxiosResult.
Variable encodeURIComponent : string -> string.
Variable NEWS_API_KEY : string.
Variable message : exn -> string.

(** [fetchWithProxy], as the [n]-th request. *)
Definition fetchWithProxy (n : nat) (url proxyUrl : string) : Data + Thrown :=
  let finalUrl := String.append proxyUrl (encodeURIComponent url) in
  match axios_get n finalUrl with
  | Failure e => inr (AxiosError e)
  | Response None => inr (PlainError "Invalid response format")
  | Response (Some data) =>
      if match data_status data with
         | Some s => String.eqb s "error"
         | None => false
         end
      then inr (PlainError (string_or (data_message data) "News API returned an error"))
      else match data_articles data with
           | None => inr (PlainError "Invalid articles data received")
           | Some _ => inl data
           end
  end.

(** The body of the inner loop, for the proxy [proxy] and the index [i]. *)
Definition attempt (url proxy : string) (i : nat) (st : RetryState) : Attempt :=
  let finalUrl := String.append proxy (encodeURIComponent url) in
  let requested := (events st ++ [Requested finalUrl])%list in
  match fetchWithProxy (requests st) url proxy with
  | inl data =>
      Returned data
        {| requests := S (requests st); events := requested; lastError := lastError st |}
  | inr error =>
      (* lastError = error; then, possibly, a delay *)
      let failed waits :=
        {| requests := S (requests st);
           events := (requested ++ waits)%list;
           lastError := error |} in
      match error with
      | AxiosError e =>
          if statusIs e 429 then Next (failed [Delayed (2000 * (i + 1))])
          else if statusIs e 401
          then Raised (PlainError "Invalid API key. Please check your configuration.")
                 (failed [])
          else if statusIs e 426
          then Raised (PlainError "Please upgrade to a paid plan for this feature.")
                 (failed [])
          else Next (failed [Delayed (1000 * (i + 1))])
      | _ => Next (failed [Delayed (1000 * (i + 1))])
      end
  end.

(** [for (let i = 0; i < retries; i++)], entered at [i] with [retries - i]
    passes left. *)
Fixpoint retryLoop (url proxy : string) (i left : nat) (st : RetryState) : Attempt :=
  match left with
  | O => Next st
  | S left' =>
      match attempt url proxy i st with
      | Next st' => retryLoop url proxy (S i) left' st'
      | done => done
      end
  end.

(** [for (const proxy of CORS_PROXIES)], then [throw lastError]. *)
Fixpoint proxyLoop (url : string) (retries : nat) (proxies : list string)
  (st : RetryState) : Fetched :=
  match proxies with
  | [] => Rejected (lastError st) st
  | proxy :: proxies' =>
      match retryLoop url proxy 0 retries st with
      | Next st' => proxyLoop url retries proxies' st'
      | Returned data st' => Resolved data st'
      | Raised error st' => Rejected error st'
      end
  end.

Definition fetchWithRetryAndFallback (url : string) (retries : nat) : Fetched :=
  proxyLoop url retries CORS_PROXIES
    {| requests := 0; events := []; lastError := ThrownUndefined |}.

(** [getErrorMessage] *)
Definition getErrorMessage (error : Thrown) : string :=
  match error with
  | AxiosError e =>
      if statusIs e 429 then "Rate limit exceeded. Please try again later."
      else if statusIs e 401 then "Invalid API key. Please check your configuration."
      else if codeIs e "ECONNABORTED" then "Request timed out. Please try again."
      else if statusIs e 426 then "Please upgrade to a paid plan for this feature."
      else if codeIs e "ERR_NETWORK"
      then "Connection error. Please check your internet connection and try again."
      else if truthyOpt (response_message e)
      then String.append "News API Error: " (string_or (response_message e) EmptyString)
      else "Failed to fetch news. Please try again later."
  | PlainError m => m
  | NativeError e => message e
  | ThrownUndefined => "An unexpected error occurred."
  end.

(** The [filter] predicate of [fetchNewsArticles]. *)
Definition keepArticle (article : option RawArticle) : bool :=
  match article with
  | Some a => truthyOpt (raw_title a) && truthyOpt (raw_description a)
  | None => false
  end.

(** The [map] function of [fetchNewsArticles]: reading [title] of [null]
    or calling [trim] on a missing title raises a [TypeError]. *)
Definition toArticle (category : option string) (article : option RawArticle)
  : outcome Article :=
  match article with
  | Some a =>
      match raw_title a, raw_description a with
      | Some t, Some d =>
          Ok {| title := trim t;
                description := trim d;
                urlToImage :=
                  string_or (raw_urlToImage a)
                    "https://images.unsplash.com/photo-1504711434969-e33886168f5c?auto=format&fit=crop&w=800";
                article_category := string_or category "General";
                url := raw_url a;
                source :=
                  string_or (match raw_source a with
                             | Some s => source_name s
                             | None => None
                             end) "Unknown Source";
                publishedAt := raw_publishedAt a |}
      | _, _ => Throw TypeError
      end
  | None => Throw TypeError
  end.

(** [xs.map(f)] for an [f] that may throw. *)
Fixpoint mapM {A B : Type} (f : A -> outcome B) (xs : list A) : outcome (list B) :=
  match xs with
  | [] => Ok []
  | x :: xs' =>
      let* y := f x in
      let* ys := mapM f xs' in
      Ok (y :: ys)
  end.

Definition endpoint (category : option string) : string :=
  if truthyOpt category
  then String.append NEWS_API_BASE_URL
         (String.append "/top-headlines?category="
            (String.append (toLowerCase (string_or category EmptyString))
               (String.append "&pageSize=100&country=us&apiKey=" NEWS_API_KEY)))
  else String.append NEWS_API_BASE_URL
         (String.append "/top-headlines?pageSize=100&country=us&apiKey=" NEWS_API_KEY).

(** [fetchNewsArticles]: the articles returned, or the message of the
    [Error] thrown, with the events of the run. *)
Definition fetchNewsArticles (category : option string)
  : (list Article + string) * list Event :=
  match fetchWithRetryAndFallback (endpoint category) 2 with
  | Resolved data st =>
      match data_articles data with
      | Some articles =>
          match mapM (toArticle category) (List.filter keepArticle articles) with
          | Ok result => (inl result, events st)
          | Throw e => (inr (getErrorMessage (NativeError e)), events st)
          end
      | None => (inr (getErrorMessage (NativeError TypeError)), events st)
      end
  | Rejected error st => (inr (getErrorMessage error), events st)
  end.

End NewsApi.

(** ** The recommendations of the dashboard *)

(** A row of the reading history. *)
Record ArticleHistory : Type := {
  hist_id : string;
  hist_title : string;
  hist_category : string;
  hist_image_url : string;
  hist_description : string;
  hist_read_at : string
}.

(** The variables of [fetchRecommendations]: the recommendations gathered
    and the number of calls of [fetchNewsArticles] made. *)
Record Recommending : Type := {
  allRecommendations : list Article;
  fetches : nat
}.

Section Dashboard.

(** The result of the [n]-th call of [fetchNewsArticles]: the articles, or
    the message of the error thrown.  [history] is the reading history
    the component holds. *)
Variable fetchArticles : nat -> option string -> list Article + string.
Variable history : list ArticleHistory.

(** The [filter] predicate: the article is neither recommended already nor
    in the history. *)
Definition notSeen (recommended : list Article) (article : Article) : bool :=
  negb (existsb (fun rec => String.eqb (title rec) (title article)) recommended)
  && negb (existsb (fun hist => String.eqb (hist_title hist) (title article)) history).

(** [allRecommendations = [...allRecommendations, ...newRecommendations]]
    after a call that returned [articles]. *)
Definition gather (st : Recommending) (articles : list Article) : Recommending :=
  let newRecommendations :=
    firstn (3 - length (allRecommendations st))
      (List.filter (notSeen (allRecommendations st)) articles) in
  {| allRecommendations := (allRecommendations st ++ newRecommendations)%list;
     fetches := S (fetches st) |}.

(** [for (const category of categories)]: the flag tells that a call threw,
    which ends the [try] block. *)
Fixpoint forCategories (categories : list string) (st : Recommending)
  : Recommending * bool :=
  match categories with
  | [] => (st, false)
  | category :: categories' =>
      if (3 <=? length (allRecommendations st))%nat then (st, false)
      else match fetchArticles (fetches st) (Some category) with
           | inl articles => forCategories categories' (gather st articles)
           | inr _ =>
               ({| allRecommendations := allRecommendations st;
                   fetches := S (fetches st) |}, true)
           end
  end.

(** The body of the [while] loop. *)
Definition recommendationPass (categories : list string) (st : Recommending)
  : Recommending :=
  let '(st1, threw) := forCategories categories st in
  if threw then st1
  else if (length (allRecommendations st1) <? 3)%nat
       then match fetchArticles (fetches st1) None with
            | inl generalArticles => gather st1 generalArticles
            | inr _ =>
                {| allRecommendations := allRecommendations st1;
                   fetches := S (fetches st1) |}
            end
       else st1.

(** [while (allRecommendations.length < 3 && attempts < maxAttempts)], with
    [left = maxAttempts - attempts]. *)
Fixpoint recommendationLoop (categories : list string) (left : nat) (st : Recommending)
  : Recommending :=
  match left with
  | O => st
  | S left' =>
      if (length (allRecommendations st) <? 3)%nat
      then recommendationLoop categories left' (recommendationPass categories st)
      else st
  end.

Definition fetchRecommendations (categories : list string) : Recommending :=
  recommendationLoop categories 3 {| allRecommendations := []; fetches := 0 |}.

End Dashboard.

(** * Notions used in the statements *)

(** One assignment attempted by the builder: the word, the weight, and
    whether the assignment stands under the [has] guard. *)
Record Occurrence : Type := {
  occ_word : string;
  occ_weight : num;
  occ_guarded : bool
}.

(** The assignments made for the words of one term. *)
Definition wordsOf (w : num) (guarded : bool) (term : string) : list Occurrence :=
  map (fun word => {| occ_word := toLowerCase word; occ_weight := w;
                      occ_guarded := guarded |})
      (splitSpace term).

(** The assignments of one category, in the order the builder makes them:
    primary terms, secondary terms, then every other term class. *)
Definition occurrencesOf (category : Keywords) : list Occurrence :=
  flat_map (wordsOf (Fin 3.0) false) (primary category)
  ++ flat_map (wordsOf (Fin 2.0) false) (secondary category)
  ++ flat_map
       (fun entry =>
          if negb (isPrimaryOrSecondary (fst entry))
          then flat_map (wordsOf (Fin 1.5) true) (snd entry) else [])
       (Object_entries category).

(** The assignments of the whole knowledge base, categories in declaration
    order. *)
Definition occurrences (kb : list (string * Keywords)) : list Occurrence :=
  flat_map occurrencesOf (map snd kb).

(** The effect of one assignment on the vocabulary. *)
Definition assign (vocab : gmap string num) (o : Occurrence) : gmap string num :=
  if occ_guarded o
  then match vocab !! occ_word o with
       | Some _ => vocab
       | None => <[occ_word o := occ_weight o]> vocab
       end
  else <[occ_word o := occ_weight o]> vocab.

(** The weight of the first occurrence of [word], the rule of first
    assignment wins. *)
Definition firstWeight (word : string) (occs : list Occurrence) : option num :=
  occ_weight <$> head (List.filter (fun o => String.eqb (occ_word o) word) occs).

(** The weight of the last unguarded (primary or secondary) occurrence, and
    of the first guarded (other class) occurrence. *)
Definition lastUnguarded (word : string) (occs : list Occurrence) : option num :=
  occ_weight <$>
    last (List.filter
            (fun o => String.eqb (occ_word o) word && negb (occ_guarded o)) occs).

Definition firstGuarded (word : string) (occs : list Occurrence) : option num :=
  occ_weight <$>
    head (List.filter
            (fun o => String.eqb (occ_word o) word && occ_guarded o) occs).

(** The weight the builder leaves for [word]. *)
Definition resolvedWeight (word : string) (occs : list Occurrence) : option num :=
  match lastUnguarded word occs with
  | Some w => Some w
  | None => firstGuarded word occs
  end.

(** The weights the builder stores. *)
Definition validWeight (v : num) : Prop :=
  v = Fin 3.0 \/ v = Fin 2.0 \/ v = Fin 1.5.

(** The words of all the terms of a category, as the semantic scorer
    reads them. *)
Definition keywordWords (k : Keywords) : list string :=
  flat_map (fun terms => flat_map preprocessText terms) (Object_values k).

(** The number of occurrences of a word in a list of words. *)
Definition freq (word : string) (words : list string) : nat :=
  length (List.filter (String.eqb word) words).

(** The body of the counting loop. *)
Definition countStep (wordFreq : gmap string nat) (word : string) : gmap string nat :=
  <[word := (get_or_nat (wordFreq !! word) 0 + 1)%nat]> wordFreq.

(** The value the [idf] expression takes for every word of the text. *)
Definition idfConstant : R := ln (1 + INR (size weightedVocabulary) / 2).

(** The terms of a list that occur in the text as literal substrings,
    case folded on both sides. *)
Definition occursIn (text term : string) : bool :=
  includes (toLowerCase text) (toLowerCase term).

(** The number of terms of a list that occur in the text. *)
Definition hits (text : string) (terms : list string) : nat :=
  length (List.filter (occursIn text) terms).

(** The terms of the classes other than primary and secondary. *)
Definition otherTerms (k : Keywords) : list string := concat (map snd (others k)).

(** The weight and the number of the matches of a category in a text. *)
Definition accumulatedWeight (text : string) (k : Keywords) : nat :=
  4 * hits text (primary k) + 3 * hits text (secondary k)
  + 2 * hits text (otherTerms k).

Definition matchCount (text : string) (k : Keywords) : nat :=
  hits text (primary k) + hits text (secondary k) + hits text (otherTerms k).

(** A term whose lower-cased form starts with two word characters. *)
Definition startsWithWord (term : string) : bool :=
  match toLowerCase term with
  | String c1 (String c2 _) => isWordChar c1 && isWordChar c2
  | _ => false
  end.

(** All the terms of a category. *)
Definition allTerms (k : Keywords) : list string :=
  primary k ++ secondary k ++ otherTerms k.

(** The vocabulary weight of a word, as a real number. *)
Definition weightR (word : string) : R :=
  match vocabularyWeight word with
  | Fin r => r
  | _ => 1
  end.

(** The TF-IDF score of a word of the text; 0 for a word that is absent. *)
Definition wordScoreR (text word : string) : R :=
  INR (freq word (preprocessText text)) / INR (length (preprocessText text))
  * idfConstant * weightR word.

(** The sum of [f] over a list of words. *)
Fixpoint sumOver (f : string -> R) (ws : list string) : R :=
  match ws with
  | [] => 0
  | w :: ws' => f w + sumOver f ws'
  end.

(** The two accumulators of the semantic scorer and their quotient. *)
Definition similarityR (text : string) (k : Keywords) : R :=
  sumOver (fun w => wordScoreR text w * weightR w) (keywordWords k).

Definition totalWeightR (k : Keywords) : R := sumOver weightR (keywordWords k).

Definition semanticR (text : string) (k : Keywords) : R :=
  similarityR text k / totalWeightR k.

(** The context score read back by [contextScores.get(category) || 0]. *)
Definition contextR (text : string) (k : Keywords) : R :=
  match length (preprocessText text) with
  | O => 0
  | S n =>
      INR (accumulatedWeight text k)
      * (1 + INR (matchCount text k) / INR (S n))
      / (1 + ln (1 + INR (S n)))
  end.

(** The combined score of a category. *)
Definition combinedR (text : string) (k : Keywords) : R :=
  semanticR text k * 0.6 + contextR text k * 0.4.

(** The entry of the [predictions] map for a category. *)
Definition scored (text : string) (ck : string * Keywords) : string * num :=
  (fst ck, Fin (combinedR text (snd ck))).

(** The scores of a text, as real numbers, and their maximum. *)
Definition scoresR (text : string) : list R :=
  map (fun ck => combinedR text (snd ck)) categoryKeywords.

Definition maxScoreR (text : string) : R := fold_left Rmax (scoresR text) 0.

(** The confidence of a category when the maximum score is positive. *)
Definition confidenceR (text : string) (k : Keywords) : R :=
  combinedR text k / maxScoreR text * 100.

(** The list handed to [sort]. *)
Definition normalized (text : string) : list Prediction :=
  map (normalize (Fin (maxScoreR text))) (map (scored text) categoryKeywords).

(** The position of a category in the declaration order. *)
Fixpoint indexOf (c : string) (keys : list string) : nat :=
  match keys with
  | [] => O
  | k :: keys' => if String.eqb k c then O else S (indexOf c keys')
  end.

Definition declIndex (c : string) : nat := indexOf c (Object_keys categoryKeywords).

(** The key the comparator orders by: the confidence, NaN counting as 0. *)
Definition rankOf (v : num) : R :=
  match v with
  | Fin x => x
  | _ => 0
  end.

Definition rank (p : Prediction) : R := rankOf (confidence p).

(** [precedes a b]: [a] has the larger confidence, or the same confidence
    and the earlier category. *)
Definition precedes (a b : Prediction) : Prop :=
  rank b < rank a
  \/ (rank a = rank b /\ (declIndex (category a) < declIndex (category b))%nat).

(** A list on which the comparator is consistent: it orders by [rank]. *)
Definition comparable (l : list Prediction) : Prop :=
  forall y x, In y l -> In x l ->
    (comesAfter compareFn y x = true <-> rank y < rank x).

(** All confidences are numbers, or all are NaN. *)
Definition uniform (l : list Prediction) : Prop :=
  Forall (fun p => exists x, confidence p = Fin x) l
  \/ Forall (fun p => confidence p = NaN) l.

(** No term of any category occurs in the text and no keyword word is one
    of its preprocessed words. *)
Definition noSignal (text : string) : bool :=
  forallb
    (fun ck =>
       (matchCount text (snd ck) =? 0)%nat
       && forallb (fun w => (freq w (preprocessText text) =? 0)%nat)
            (keywordWords (snd ck)))
    categoryKeywords.

(** The result on a text without signal: every confidence is NaN and the
    categories keep their declaration order. *)
Definition undefinedResult : Classification :=
  {| top_category := "Technology";
     top_confidence := NaN;
     predictions :=
       map (fun c => {| category := c; confidence := NaN |})
         ["Technology"; "Business"; "Politics"; "Sports"; "Entertainment";
          "Health"; "Science"] |}.

(** A confidence that is a percentage. *)
Definition isPercentage (v : num) : Prop := exists x, v = Fin x /\ 0 <= x <= 100.

(** [score * (textLength + matches)]: the numerator of the context score
    over the common denominator [textLength * (1 + ln (1 + textLength))]. *)
Definition weightedMatches (text : string) (k : Keywords) : nat :=
  accumulatedWeight text k * (length (preprocessText text) + matchCount text k).

(** [dominant text c]: the text has a word, and every category other than
    [c] has no keyword word in the text and a smaller weight of matches. *)
Definition dominant (text c : string) : bool :=
  match getProperty categoryKeywords c with
  | Some kc =>
      negb (length (preprocessText text) =? 0)%nat
      && forallb
           (fun ck =>
              String.eqb (fst ck) c
              || ((weightedMatches text (snd ck) <? weightedMatches text kc)%nat
                  && forallb (fun w => (freq w (preprocessText text) =? 0)%nat)
                       (keywordWords (snd ck))))
           categoryKeywords
  | None => false
  end.

(** * Further notions used in the statements *)

(** A character of [[0-9_a-z]]: a word character that is no capital. *)
Definition isLowerWordChar (c : ascii) : bool :=
  let n := code c in
  between 48 57 n || (n =? 95)%nat || between 97 122 n.

(** Every character of a string satisfies a test. *)
Fixpoint allChars (p : ascii -> bool) (s : string) : bool :=
  match s with
  | EmptyString => true
  | String c s' => p c && allChars p s'
  end.

(** The [filter] step of [preprocessText]. *)
Definition longWords (pieces : list string) : list string :=
  List.filter (fun word => (1 <? String.length word)%nat) pieces.

(** The lower-cased words of all the terms of the knowledge base, split at
    spaces as the vocabulary builder splits them. *)
Definition termWords (kb : list (string * Keywords)) : list string :=
  flat_map
    (fun ck => flat_map (fun term => map toLowerCase (splitSpace term)) (allTerms (snd ck)))
    kb.

(** The number of requests and the total waiting time of a run. *)
Definition countRequests (evs : list Event) : nat :=
  length (List.filter (fun ev => match ev with Requested _ => true | _ => false end) evs).

Definition totalDelay (evs : list Event) : nat :=
  list_sum (map (fun ev => match ev with Delayed ms => ms | _ => 0%nat end) evs).

(** The state in which a run ends. *)
Definition finalState (f : Fetched) : RetryState :=
  match f with
  | Resolved _ st | Rejected _ st => st
  end.

Definition stateOf (a : Attempt) : RetryState :=
  match a with
  | Returned _ st | Raised _ st | Next st => st
  end.

(** An event a run for [url] with [retries] passes per proxy may contain:
    a request to one of the proxies, or a wait of at most
    [2000 * retries] milliseconds. *)
Definition expectedEvent (encodeURIComponent : string -> string) (url : string)
  (retries : nat) (ev : Event) : Prop :=
  match ev with
  | Requested finalUrl =>
      exists proxy, In proxy CORS_PROXIES
                    /\ finalUrl = String.append proxy (encodeURIComponent url)
  | Delayed ms => (ms <= 2000 * retries)%nat
  end.

(** The two errors that end a run at once. *)
Definition fatalError (error : Thrown) : Prop :=
  error = PlainError "Invalid API key. Please check your configuration."
  \/ error = PlainError "Please upgrade to a paid plan for this feature.".

(** An error whose message is not empty and that is no engine exception. *)
Definition reportable (error : Thrown) : Prop :=
  match error with
  | PlainError m => truthyString m = true
  | NativeError _ => False
  | _ => True
  end.

(** What every pass of a run keeps: the counter counts the requests of the
    log, the log holds expected events only, and [lastError] is still
    [undefined] or can be reported. *)
Definition runInvariant (encodeURIComponent : string -> string) (url : string)
  (retries : nat) (st : RetryState) : Prop :=
  requests st = countRequests (events st)
  /\ Forall (expectedEvent encodeURIComponent url retries) (events st)
  /\ (lastError st = ThrownUndefined \/ reportable (lastError st)).

(** [(i + 1) + (i + 2) + ...], one summand for each of [left] passes. *)
Fixpoint passes (i left : nat) : nat :=
  match left with
  | O => O
  | S left' => (i + 1) + passes (S i) left'
  end.


(** A network that answers every request with the status 503, and one
    that answers every request with the status 429. *)
Definition unavailable (n : nat) (finalUrl : string) : AxiosResult :=
  Failure {| response_status := Some 503%nat; err_code := None; response_message := None |}.

Definition rateLimiting (n : nat) (finalUrl : string) : AxiosResult :=
  Failure {| response_status := Some 429%nat; err_code := None; response_message := None |}.

(** What holds of the recommendations at every point of
    [fetchRecommendations]: they are at most 3, none has a title of the
    history, and each was returned by one of the calls made so far. *)
Definition gathered (fetchArticles : nat -> option string -> list Article + string)
  (history : list ArticleHistory) (st : Recommending) : Prop :=
  (length (allRecommendations st) <= 3)%nat
  /\ Forall
       (fun article =>
          ~ In (title article) (map hist_title history)
          /\ exists n category articles,
               (n < fetches st)%nat
               /\ fetchArticles n category = inl articles
               /\ In article articles)
       (allRecommendations st).

(** The articles whose title is not in the history. *)
Definition unread (history : list ArticleHistory) (articles : list Article)
  : list Article :=
  List.filter
    (fun article =>
       negb (existsb (fun hist => String.eqb (hist_title hist) (title article)) history))
    articles.

(** A source of articles whose every call fails. *)
Definition failing (n : nat) (category : option string) : list Article + string :=
  inr "Failed to fetch news. Please try again later.".

(** * Properties *)

(** ** Generic facts about loops *)

Lemma fold_left_flat_map {A B S : Type} (f : S -> B -> S) (g : A -> list B)
  (xs : list A) (s : S) :
  fold_left f (flat_map g xs) s = fold_left (fun acc x => fold_left f (g x) acc) xs s.
Proof.
  revert s. induction xs as [|x xs IH]; intros s; simpl; [reflexivity|].
  rewrite fold_left_app. apply IH.
Qed.

Lemma fold_left_map_list {A B S : Type} (f : S -> B -> S) (g : A -> B)
  (xs : list A) (s : S) :
  fold_left f (map g xs) s = fold_left (fun acc x => f acc (g x)) xs s.
Proof.
  revert s. induction xs as [|x xs IH]; intros s; simpl; [reflexivity|]. apply IH.
Qed.

Lemma fold_left_ext_in {A S : Type} (f g : S -> A -> S) (xs : list A) (s : S) :
  (forall acc x, In x xs -> f acc x = g acc x) ->
  fold_left f xs s = fold_left g xs s.
Proof.
  revert s. induction xs as [|x xs IH]; intros s H; simpl; [reflexivity|].
  rewrite H by (left; reflexivity). apply IH. intros; apply H; right; assumption.
Qed.

(** ** The weighted vocabulary as a sequence of assignments *)

Lemma setWords_assign w vocab keyword :
  setWords w vocab keyword = fold_left assign (wordsOf w false keyword) vocab.
Proof. unfold setWords, wordsOf. rewrite fold_left_map_list. reflexivity. Qed.

Lemma setWordsIfAbsent_assign w vocab term :
  setWordsIfAbsent w vocab term = fold_left assign (wordsOf w true term) vocab.
Proof. unfold setWordsIfAbsent, wordsOf. rewrite fold_left_map_list. reflexivity. Qed.

Lemma addCategory_assign vocab category :
  addCategory vocab category = fold_left assign (occurrencesOf category) vocab.
Proof.
  unfold addCategory, occurrencesOf.
  rewrite !fold_left_app, !fold_left_flat_map.
  rewrite (fold_left_ext_in (setWords (Fin 3.0))
             (fun acc x => fold_left assign (wordsOf (Fin 3.0) false x) acc))
    by (intros; apply setWords_assign).
  rewrite (fold_left_ext_in (setWords (Fin 2.0))
             (fun acc x => fold_left assign (wordsOf (Fin 2.0) false x) acc))
    by (intros; apply setWords_assign).
  apply fold_left_ext_in. intros acc [key terms] _. simpl.
  destruct (negb (isPrimaryOrSecondary key)); [|reflexivity].
  rewrite fold_left_flat_map. apply fold_left_ext_in.
  intros; apply setWordsIfAbsent_assign.
Qed.

Lemma vocabularyOf_assign kb :
  vocabularyOf kb = fold_left assign (occurrences kb) ∅.
Proof.
  unfold vocabularyOf, occurrences. rewrite fold_left_flat_map.
  apply fold_left_ext_in. intros; apply addCategory_assign.
Qed.

Lemma assign_lookup vocab o word :
  assign vocab o !! word =
  if String.eqb (occ_word o) word
  then (if occ_guarded o
        then match vocab !! word with
             | Some v => Some v
             | None => Some (occ_weight o)
             end
        else Some (occ_weight o))
  else vocab !! word.
Proof.
  unfold assign.
  destruct (String.eqb_spec (occ_word o) word) as [->|Hne].
  - destruct (occ_guarded o); [|apply lookup_insert_eq].
    destruct (vocab !! word) as [v|] eqn:Hv; [assumption|apply lookup_insert_eq].
  - destruct (occ_guarded o); [destruct (vocab !! occ_word o)|];
      try reflexivity; apply lookup_insert_ne; assumption.
Qed.

Lemma assign_all_lookup occs word :
  fold_left assign occs ∅ !! word = resolvedWeight word occs.
Proof.
  induction occs as [|o occs IH] using rev_ind; [reflexivity|].
  rewrite fold_left_app. simpl. rewrite assign_lookup, IH.
  unfold resolvedWeight, lastUnguarded, firstGuarded.
  rewrite !List.filter_app. simpl.
  destruct (String.eqb (occ_word o) word); simpl.
  - destruct (occ_guarded o); simpl.
    + rewrite !app_nil_r.
      destruct (last _) as [o'|]; simpl; [reflexivity|].
      destruct (List.filter _ occs) as [|o1 l1]; reflexivity.
    + rewrite last_snoc. reflexivity.
  - rewrite !app_nil_r. reflexivity.
Qed.

(** ** C1: precedence of assignments in the vocabulary builder *)

(** C1, the claim fails: the word "research" first occurs in the secondary
    list of Health (weight 2.0) and is reassigned by the primary list of
    Science, which comes later, so its final weight is 3.0 and not the
    weight of its first occurrence. *)
Lemma C1_first_occurrence_overwritten :
  firstWeight "research" (occurrences categoryKeywords) = Some (Fin 2.0)
  /\ createWeightedVocabulary !! "research" = Some (Fin 3.0)
  /\ createWeightedVocabulary !! "research"
     <> firstWeight "research" (occurrences categoryKeywords).
Proof.
  assert (H1 : firstWeight "research" (occurrences categoryKeywords) = Some (Fin 2.0))
    by (vm_compute; reflexivity).
  assert (H2 : createWeightedVocabulary !! "research" = Some (Fin 3.0))
    by (vm_compute; reflexivity).
  split; [exact H1|]. split; [exact H2|].
  rewrite H1, H2. intros Heq. injection Heq as Heq. lra.
Qed.

(** C1, amended: a primary (3.0) or secondary (2.0) assignment is made
    unconditionally and overwrites an existing entry; only the assignments
    of the other term classes (1.5) are skipped when the word has an
    entry.  Hence the final weight of a word is the weight of its last
    primary or secondary occurrence in iteration order when it has one,
    and otherwise the weight of its first other-class occurrence. *)
Theorem C1_createWeightedVocabulary_precedence (word : string) :
  createWeightedVocabulary !! word
  = match lastUnguarded word (occurrences categoryKeywords) with
    | Some w => Some w
    | None => firstGuarded word (occurrences categoryKeywords)
    end.
Proof.
  unfold createWeightedVocabulary. rewrite vocabularyOf_assign.
  apply assign_all_lookup.
Qed.

(** ** Weights stored in the vocabulary *)

Lemma wordsOf_weight w g term o : In o (wordsOf w g term) -> occ_weight o = w.
Proof.
  unfold wordsOf. rewrite in_map_iff. intros (word & <- & _). reflexivity.
Qed.

Lemma occurrences_weight kb o :
  In o (occurrences kb) -> validWeight (occ_weight o).
Proof.
  unfold occurrences, occurrencesOf. rewrite in_flat_map.
  intros (k & _ & Hin). rewrite !in_app_iff, !in_flat_map in Hin.
  destruct Hin as [(t & _ & Ho) | [(t & _ & Ho) | ([key terms] & _ & Ho)]].
  - left. eapply wordsOf_weight, Ho.
  - right; left. eapply wordsOf_weight, Ho.
  - simpl in Ho. destruct (negb (isPrimaryOrSecondary key)); [|contradiction].
    rewrite in_flat_map in Ho. destruct Ho as (t & _ & Ho).
    right; right. eapply wordsOf_weight, Ho.
Qed.

Lemma head_filter_In {A : Type} (p : A -> bool) (l : list A) (x : A) :
  head (List.filter p l) = Some x -> In x l.
Proof.
  intros H. assert (Hin : In x (List.filter p l)).
  { destruct (List.filter p l); simpl in H; [discriminate|].
    injection H as ->. left; reflexivity. }
  apply filter_In in Hin. tauto.
Qed.

Lemma last_filter_In {A : Type} (p : A -> bool) (l : list A) (x : A) :
  last (List.filter p l) = Some x -> In x l.
Proof.
  intros H. apply last_Some in H as [l' Hl'].
  assert (Hin : In x (List.filter p l)).
  { rewrite Hl'. apply in_or_app. right. left. reflexivity. }
  apply filter_In in Hin. tauto.
Qed.

Lemma resolvedWeight_In word occs v :
  resolvedWeight word occs = Some v ->
  exists o, In o occs /\ occ_weight o = v.
Proof.
  unfold resolvedWeight, lastUnguarded, firstGuarded.
  destruct (last _) as [o|] eqn:Hl; simpl.
  - intros [= <-]. exists o. split; [|reflexivity]. eapply last_filter_In, Hl.
  - destruct (head _) as [o|] eqn:Hh; simpl; [|discriminate].
    intros [= <-]. exists o. split; [|reflexivity]. eapply head_filter_In, Hh.
Qed.

Lemma weightedVocabulary_valid word v :
  weightedVocabulary !! word = Some v -> validWeight v.
Proof.
  unfold weightedVocabulary, createWeightedVocabulary.
  rewrite vocabularyOf_assign, assign_all_lookup. intros H.
  apply resolvedWeight_In in H as (o & Hin & <-).
  eapply occurrences_weight, Hin.
Qed.

Lemma truthy_Fin_nonzero r : r <> 0 -> truthy (Fin r) = true.
Proof. intros H. simpl. destruct (Req_dec_T r 0); [contradiction|reflexivity]. Qed.

(** The weight of any word is one of 3.0, 2.0, 1.5 and the default 1.0. *)
Lemma vocabularyWeight_cases word :
  vocabularyWeight word = Fin 3.0 \/ vocabularyWeight word = Fin 2.0
  \/ vocabularyWeight word = Fin 1.5 \/ vocabularyWeight word = Fin 1.0.
Proof.
  unfold vocabularyWeight, get_or.
  destruct (weightedVocabulary !! word) as [v|] eqn:Hv; [|tauto].
  apply weightedVocabulary_valid in Hv as [-> | [-> | ->]];
    rewrite truthy_Fin_nonzero by lra; tauto.
Qed.

Lemma vocabularyWeight_ge1 word :
  exists r, vocabularyWeight word = Fin r /\ 1 <= r.
Proof.
  destruct (vocabularyWeight_cases word) as [-> | [-> | [-> | ->]]];
    eexists; (split; [reflexivity|lra]).
Qed.

(** ** The semantic scorer as one loop over the category's keyword words *)

Lemma accumulateSimilarity_flat textScores k :
  accumulateSimilarity textScores k
  = fold_left (addWord textScores) (keywordWords k) (Fin 0, Fin 0).
Proof.
  unfold accumulateSimilarity, keywordWords. rewrite fold_left_flat_map.
  apply fold_left_ext_in. intros acc terms _.
  rewrite fold_left_flat_map. reflexivity.
Qed.

(** The [totalWeight] accumulator never reads the text scores. *)
Lemma addWord_totalWeight textScores ws acc :
  snd (fold_left (addWord textScores) ws acc)
  = fold_left (fun t w => nadd t (vocabularyWeight w)) ws (snd acc).
Proof.
  revert acc. induction ws as [|w ws IH]; intros acc; simpl; [reflexivity|].
  rewrite IH. reflexivity.
Qed.

Lemma sum_weights_lower_bound ws t :
  exists t', fold_left (fun t w => nadd t (vocabularyWeight w)) ws (Fin t) = Fin t'
             /\ t + INR (length ws) <= t'.
Proof.
  revert t. induction ws as [|w ws IH]; intros t.
  - exists t. simpl. split; [reflexivity|lra].
  - destruct (vocabularyWeight_ge1 w) as (r & Hr & Hge).
    destruct (IH (t + r)) as (t' & Ht' & Hle).
    exists t'. split.
    + cbn [fold_left]. rewrite Hr. exact Ht'.
    + change (length (w :: ws)) with (S (length ws)). rewrite S_INR. lra.
Qed.

Lemma totalWeight_positive k :
  keywordWords k <> [] ->
  exists tw, 0 < tw /\
    forall textScores, snd (accumulateSimilarity textScores k) = Fin tw.
Proof.
  intros Hne.
  destruct (sum_weights_lower_bound (keywordWords k) 0) as (tw & Htw & Hle).
  exists tw. split.
  - destruct (keywordWords k) as [|w ws]; [contradiction|].
    change (length (w :: ws)) with (S (length ws)) in Hle.
    rewrite S_INR in Hle. pose proof (pos_INR (length ws)). lra.
  - intros textScores.
    rewrite accumulateSimilarity_flat, addWord_totalWeight. exact Htw.
Qed.

Lemma ngt_Fin_0 r : 0 < r -> ngt (Fin r) (Fin 0) = true.
Proof. intros H. simpl. destruct (Rlt_dec 0 r); [reflexivity|contradiction]. Qed.

Lemma getProperty_categoryKeywords c k :
  In (c, k) categoryKeywords -> getProperty categoryKeywords c = Some k.
Proof.
  assert (H : Forall (fun ck => getProperty categoryKeywords (fst ck) = Some (snd ck))
                categoryKeywords)
    by (repeat constructor).
  rewrite List.Forall_forall in H. intros Hin. apply (H (c, k)). exact Hin.
Qed.

Lemma keywordWords_categoryKeywords c k :
  In (c, k) categoryKeywords -> keywordWords k <> [].
Proof.
  assert (H : forallb (fun ck => (0 <? length (keywordWords (snd ck)))%nat)
                categoryKeywords = true)
    by (vm_compute; reflexivity).
  rewrite forallb_forall in H. intros Hin Hnil.
  specialize (H (c, k) Hin). simpl in H. rewrite Hnil in H. discriminate.
Qed.

(** ** C10: the denominator of the semantic similarity *)

(** C10: for each of the 7 categories the [totalWeight] accumulated by
    [calculateSemanticSimilarity] is one strictly positive number [tw],
    the same for every text-score map (it depends on the keyword lists
    only); the guard [totalWeight > 0] therefore holds and the function
    returns [similarity / totalWeight], a division by a non-zero number,
    never the fallback 0 of the other branch. *)
Theorem C10_totalWeight_positive :
  Forall
    (fun ck =>
       exists tw, 0 < tw /\
         forall textScores,
           snd (accumulateSimilarity textScores (snd ck)) = Fin tw
           /\ ngt (snd (accumulateSimilarity textScores (snd ck))) (Fin 0) = true
           /\ calculateSemanticSimilarity textScores (fst ck)
              = Ok (ndiv (fst (accumulateSimilarity textScores (snd ck))) (Fin tw)))
    categoryKeywords.
Proof.
  rewrite List.Forall_forall. intros [c k] Hin. simpl.
  destruct (totalWeight_positive k (keywordWords_categoryKeywords c k Hin))
    as (tw & Hpos & Htw).
  exists tw. split; [exact Hpos|]. intros textScores.
  specialize (Htw textScores).
  split; [exact Htw|]. split; [rewrite Htw; apply ngt_Fin_0, Hpos|].
  unfold calculateSemanticSimilarity.
  rewrite (getProperty_categoryKeywords c k Hin).
  destruct (accumulateSimilarity textScores k) as [similarity totalWeight].
  simpl in Htw. subst totalWeight. rewrite ngt_Fin_0 by exact Hpos. reflexivity.
Qed.

(** ** Arithmetic on finite numbers *)

Lemma nadd_Fin a b : nadd (Fin a) (Fin b) = Fin (a + b).
Proof. reflexivity. Qed.

Lemma nmul_Fin a b : nmul (Fin a) (Fin b) = Fin (a * b).
Proof. reflexivity. Qed.

Lemma ndiv_Fin a b : b <> 0 -> ndiv (Fin a) (Fin b) = Fin (a / b).
Proof. intros H. simpl. destruct (Req_dec_T b 0); [contradiction|reflexivity]. Qed.

Lemma Math_log_Fin a : 0 < a -> Math_log (Fin a) = Fin (ln a).
Proof.
  intros H. simpl. destruct (Rlt_dec a 0); [lra|].
  destruct (Req_dec_T a 0); [lra|reflexivity].
Qed.

Lemma INR_pos_nonzero n : (0 < n)%nat -> INR n <> 0.
Proof. intros H. apply not_0_INR. lia. Qed.

(** ** Word frequencies *)

Lemma weightedVocabulary_size : size weightedVocabulary = 282%nat.
Proof. vm_compute. reflexivity. Qed.

Lemma freq_cons word w words :
  freq word (w :: words)
  = if String.eqb word w then S (freq word words) else freq word words.
Proof. unfold freq. simpl. destruct (String.eqb word w); reflexivity. Qed.

Lemma freq_le_length word words : (freq word words <= length words)%nat.
Proof. unfold freq. apply List.filter_length_le. Qed.

Lemma countStep_fold words wordFreq word :
  (forall w, wordFreq !! w <> Some 0%nat) ->
  fold_left countStep words wordFreq !! word
  = match freq word words with
    | O => wordFreq !! word
    | S n => Some (get_or_nat (wordFreq !! word) 0 + S n)%nat
    end.
Proof.
  revert wordFreq. induction words as [|w words IH]; intros wordFreq Hnz.
  - reflexivity.
  - cbn [fold_left]. rewrite IH, freq_cons.
    + unfold countStep. destruct (String.eqb_spec word w) as [<-|Hne].
      * rewrite lookup_insert_eq.
        replace (get_or_nat (wordFreq !! word) 0 + 1)%nat
          with (S (get_or_nat (wordFreq !! word) 0)) by lia.
        cbn [get_or_nat].
        destruct (freq word words); f_equal; lia.
      * rewrite lookup_insert_ne by congruence. reflexivity.
    + intros w'. unfold countStep.
      destruct (String.eqb_spec w w') as [<-|Hne].
      * rewrite lookup_insert_eq. intros [=]. lia.
      * rewrite lookup_insert_ne by assumption. apply Hnz.
Qed.

Lemma countWords_lookup words word :
  countWords words !! word
  = match freq word words with
    | O => None
    | S n => Some (S n)
    end.
Proof.
  unfold countWords. fold countStep.
  rewrite countStep_fold by (intros w; rewrite lookup_empty; discriminate).
  rewrite lookup_empty. reflexivity.
Qed.

(** ** C6: the weighted TF-IDF scores *)

Lemma idf_present n :
  Math_log (nadd (Fin 1)
              (ndiv (ofNat (size weightedVocabulary))
                 (nadd (Fin 1) (if (0 <? S n)%nat then Fin 1 else Fin 0))))
  = Fin idfConstant.
Proof.
  change (0 <? S n)%nat with true. cbv iota. unfold ofNat.
  rewrite nadd_Fin, ndiv_Fin, nadd_Fin by lra.
  pose proof (pos_INR (size weightedVocabulary)) as HV.
  rewrite Math_log_Fin.
  - unfold idfConstant. replace (1 + 1) with 2 by lra. reflexivity.
  - apply Rplus_lt_le_0_compat; [lra|].
    apply Rmult_le_pos; [exact HV|]. lra.
Qed.

Lemma weightedScore_present nwords word n wt :
  (0 < nwords)%nat ->
  vocabularyWeight word = Fin wt ->
  weightedScore nwords word (S n)
  = Fin (INR (S n) / INR nwords * idfConstant * wt).
Proof.
  intros Hn Hwt. unfold weightedScore.
  rewrite idf_present, Hwt. unfold ofNat.
  rewrite ndiv_Fin by (apply INR_pos_nonzero, Hn). reflexivity.
Qed.

Lemma calculateWeightedTfIdf_lookup text word :
  calculateWeightedTfIdf text !! word
  = match freq word (preprocessText text) with
    | O => None
    | S n => Some (weightedScore (length (preprocessText text)) word (S n))
    end.
Proof.
  unfold calculateWeightedTfIdf. cbv zeta.
  rewrite map_lookup_imap, countWords_lookup.
  destruct (freq word (preprocessText text)); reflexivity.
Qed.

(** C6: [calculateWeightedTfIdf] has an entry exactly for the words that
    occur in the preprocessed text; the entry of a word [w] of frequency
    [freq w] among the [N] preprocessed words is [tf * idf * wt] with
    [tf = freq w / N], [idf = ln (1 + V / (1 + (freq w > 0 ? 1 : 0)))],
    which is the constant [ln (1 + V / 2)] whatever the word, [V] the size
    of the weighted vocabulary, and [wt] the vocabulary weight of [w], 1.0
    when [w] is not in the vocabulary. *)
Theorem C6_calculateWeightedTfIdf_formula (text word : string) :
  exists wt : R,
    vocabularyWeight word = Fin wt
    /\ match weightedVocabulary !! word with
       | Some v => v = Fin wt
       | None => wt = 1.0
       end
    /\ match freq word (preprocessText text) with
       | O => calculateWeightedTfIdf text !! word = None
       | S _ =>
           calculateWeightedTfIdf text !! word
           = Some (Fin (INR (freq word (preprocessText text))
                        / INR (length (preprocessText text))
                        * ln (1 + INR (size weightedVocabulary)
                                  / (1 + (if (0 <? freq word (preprocessText text))%nat
                                          then 1 else 0)))
                        * wt))
           /\ ln (1 + INR (size weightedVocabulary)
                      / (1 + (if (0 <? freq word (preprocessText text))%nat
                              then 1 else 0)))
              = ln (1 + INR (size weightedVocabulary) / 2)
       end.
Proof.
  destruct (vocabularyWeight_ge1 word) as (wt & Hwt & Hge).
  exists wt. split; [exact Hwt|]. split.
  - unfold vocabularyWeight, get_or in Hwt.
    destruct (weightedVocabulary !! word) as [v|] eqn:Hv.
    + apply weightedVocabulary_valid in Hv as Hvalid.
      destruct Hvalid as [-> | [-> | ->]];
        rewrite truthy_Fin_nonzero in Hwt by lra; exact Hwt.
    + injection Hwt as <-. reflexivity.
  - rewrite calculateWeightedTfIdf_lookup.
    pose proof (freq_le_length word (preprocessText text)) as Hle.
    destruct (freq word (preprocessText text)) as [|n]; [reflexivity|].
    change (0 <? S n)%nat with true. cbv iota.
    replace (1 + 1) with 2 by lra. split; [|reflexivity].
    rewrite (weightedScore_present _ _ _ wt) by (lia || exact Hwt).
    unfold idfConstant. reflexivity.
Qed.

(** ** C7: the context pattern scores *)

Lemma scanTerm_fold text type terms acc :
  fold_left (scanTerm text type) terms acc
  = ((fst acc + matchWeight type * hits text terms)%nat,
     (snd acc + hits text terms)%nat).
Proof.
  revert acc. induction terms as [|term terms IH]; intros [s m].
  - simpl. unfold hits. simpl. f_equal; lia.
  - cbn [fold_left]. rewrite IH. unfold scanTerm, hits. cbn [List.filter].
    fold (occursIn text term). destruct (occursIn text term); simpl; f_equal; lia.
Qed.

Lemma scanOthers_fold text entries acc :
  forallb (fun entry => negb (isPrimaryOrSecondary (fst entry))) entries = true ->
  fold_left (fun acc '(type, terms) => fold_left (scanTerm text type) terms acc)
    entries acc
  = ((fst acc + 2 * hits text (concat (map snd entries)))%nat,
     (snd acc + hits text (concat (map snd entries)))%nat).
Proof.
  revert acc. induction entries as [|[type terms] entries IH]; intros [s m] Hall.
  - simpl. unfold hits. simpl. f_equal; lia.
  - cbn [forallb fst] in Hall. apply andb_prop in Hall as [Htype Hall].
    cbn [fold_left]. rewrite scanTerm_fold, IH by exact Hall.
    assert (Hw : matchWeight type = 2%nat).
    { unfold isPrimaryOrSecondary in Htype. cbn [existsb] in Htype.
      unfold matchWeight.
      destruct (String.eqb type "primary"); [discriminate|].
      destruct (String.eqb type "secondary"); [discriminate|reflexivity]. }
    rewrite Hw. cbn [map concat snd fst]. unfold hits.
    rewrite List.filter_app, length_app. f_equal; lia.
Qed.

Lemma scanKeywords_counts text k :
  forallb (fun entry => negb (isPrimaryOrSecondary (fst entry))) (others k) = true ->
  scanKeywords text k
  = ((4 * hits text (primary k) + 3 * hits text (secondary k)
      + 2 * hits text (otherTerms k))%nat,
     (hits text (primary k) + hits text (secondary k)
      + hits text (otherTerms k))%nat).
Proof.
  intros Hall. unfold scanKeywords, Object_entries. cbn [fold_left].
  rewrite !scanTerm_fold, scanOthers_fold by exact Hall.
  change (matchWeight "primary") with 4%nat.
  change (matchWeight "secondary") with 3%nat.
  unfold otherTerms. cbn [fst snd]. f_equal; lia.
Qed.

Lemma others_categoryKeywords c k :
  In (c, k) categoryKeywords ->
  forallb (fun entry => negb (isPrimaryOrSecondary (fst entry))) (others k) = true.
Proof.
  assert (H : forallb
                (fun ck => forallb (fun entry => negb (isPrimaryOrSecondary (fst entry)))
                             (others (snd ck)))
                categoryKeywords = true)
    by (vm_compute; reflexivity).
  rewrite forallb_forall in H. intros Hin. apply (H (c, k) Hin).
Qed.

(** The map built by a loop of [set] calls holds, for a key, the value of
    the last entry with that key. *)
Lemma fold_set_lookup (f : Keywords -> num) (kb : list (string * Keywords))
  (scores : gmap string num) (c : string) :
  fold_left (fun scores '(category, keywords) => <[category := f keywords]> scores)
    kb scores !! c
  = match getProperty (rev kb) c with
    | Some k => Some (f k)
    | None => scores !! c
    end.
Proof.
  induction kb as [|[c' k'] kb IH] using rev_ind; [reflexivity|].
  rewrite fold_left_app, rev_app_distr. cbn [fold_left rev app getProperty].
  destruct (String.eqb_spec c' c) as [->|Hne].
  - apply lookup_insert_eq.
  - rewrite lookup_insert_ne by exact Hne. apply IH.
Qed.

Lemma getProperty_rev_categoryKeywords c k :
  In (c, k) categoryKeywords -> getProperty (rev categoryKeywords) c = Some k.
Proof.
  assert (H : Forall (fun ck => getProperty (rev categoryKeywords) (fst ck) = Some (snd ck))
                categoryKeywords)
    by (repeat constructor).
  rewrite List.Forall_forall in H. intros Hin. apply (H (c, k)). exact Hin.
Qed.

Lemma analyzeContextPatterns_lookup text c k :
  In (c, k) categoryKeywords ->
  analyzeContextPatterns text !! c
  = Some (finalScore (fst (scanKeywords text k)) (snd (scanKeywords text k))
            (length (preprocessText text))).
Proof.
  intros Hin. unfold analyzeContextPatterns. cbv zeta.
  rewrite (fold_left_ext_in _
             (fun scores '(category, keywords) =>
                <[category := (fun k => finalScore (fst (scanKeywords text k))
                                          (snd (scanKeywords text k))
                                          (length (preprocessText text))) keywords]>
                  scores)).
  - rewrite fold_set_lookup, (getProperty_rev_categoryKeywords c k Hin). reflexivity.
  - intros acc [c' k'] _. destruct (scanKeywords text k'); reflexivity.
Qed.

Lemma finalScore_nonempty score matches n :
  finalScore score matches (S n)
  = Fin (INR score * (1 + INR matches / INR (S n)) / (1 + ln (1 + INR (S n)))).
Proof.
  unfold finalScore, ofNat. cbv zeta.
  pose proof (pos_INR n) as Hn. rewrite S_INR in *.
  rewrite ndiv_Fin, !nadd_Fin, nmul_Fin by lra.
  rewrite Math_log_Fin, nadd_Fin by lra.
  assert (0 <= ln (1 + (INR n + 1))).
  { rewrite <- ln_1. destruct (Req_dec (INR n) 0) as [->|Hz].
    - replace (1 + (0 + 1)) with 2 by lra. left. apply ln_increasing; lra.
    - left. apply ln_increasing; lra. }
  rewrite ndiv_Fin by lra. reflexivity.
Qed.

Lemma signed_inf_pos pos r : 0 < r -> signed_inf pos r = if pos then PInf else NInf.
Proof. intros H. unfold signed_inf. destruct (Rlt_dec 0 r); [reflexivity|contradiction]. Qed.

Lemma signed_inf_zero pos : signed_inf pos 0 = NaN.
Proof.
  unfold signed_inf. destruct (Rlt_dec 0 0); [lra|]. reflexivity.
Qed.

Lemma ndiv_Fin_zero a : ndiv (Fin a) (Fin 0) = signed_inf true a.
Proof. simpl. destruct (Req_dec_T 0 0); [reflexivity|contradiction]. Qed.

(** On a text without any preprocessed word the density is 0/0 or a
    division of a positive count by zero. *)
Lemma finalScore_empty score matches :
  finalScore score matches 0
  = match matches, score with
    | O, _ | _, O => NaN
    | S _, S _ => PInf
    end.
Proof.
  unfold finalScore, ofNat. cbv zeta. change (INR 0) with 0.
  rewrite ndiv_Fin_zero.
  destruct matches as [|m].
  - change (INR 0) with 0. rewrite signed_inf_zero. reflexivity.
  - rewrite signed_inf_pos by (apply lt_0_INR; lia).
    change (nadd (Fin 1) PInf) with PInf.
    change (nmul (Fin (INR score)) PInf) with (signed_inf true (INR score)).
    destruct score as [|s].
    + change (INR 0) with 0. rewrite signed_inf_zero. reflexivity.
    + rewrite signed_inf_pos by (apply lt_0_INR; lia).
      rewrite nadd_Fin, Math_log_Fin, nadd_Fin by lra.
      cbn [ndiv]. destruct (Rlt_dec _ 0) as [Hlt|]; [|reflexivity].
      replace (1 + 0) with 1 in Hlt by lra. rewrite ln_1 in Hlt. lra.
Qed.

(** C7: for every text and every category, [analyzeContextPatterns] stores
    for the category the value of
    [(score * (1 + matches / textLength)) / (1 + Math.log(1 + textLength))]
    where [score] adds 4 for each primary term, 3 for each secondary term
    and 2 for each term of another class that occurs in the lower-cased
    text as a literal substring, [matches] counts those terms, and
    [textLength] is the number of preprocessed words of the text.  When the
    text has a preprocessed word this value is the real number the
    formula denotes; when it has none, the formula divides by zero and its
    value is NaN or Infinity. *)
Theorem C7_analyzeContextPatterns_formula (text : string) :
  Forall
    (fun ck =>
       analyzeContextPatterns text !! fst ck
       = Some (finalScore (accumulatedWeight text (snd ck)) (matchCount text (snd ck))
                 (length (preprocessText text)))
       /\ finalScore (accumulatedWeight text (snd ck)) (matchCount text (snd ck))
            (length (preprocessText text))
          = match length (preprocessText text) with
            | S n =>
                Fin (INR (accumulatedWeight text (snd ck))
                     * (1 + INR (matchCount text (snd ck)) / INR (S n))
                     / (1 + ln (1 + INR (S n))))
            | O =>
                match matchCount text (snd ck), accumulatedWeight text (snd ck) with
                | O, _ | _, O => NaN
                | S _, S _ => PInf
                end
            end)
    categoryKeywords.
Proof.
  rewrite List.Forall_forall. intros [c k] Hin. cbn [fst snd]. split.
  - rewrite (analyzeContextPatterns_lookup text c k Hin).
    rewrite (scanKeywords_counts text k (others_categoryKeywords c k Hin)).
    reflexivity.
  - destruct (length (preprocessText text)) as [|n].
    + apply finalScore_empty.
    + apply finalScore_nonempty.
Qed.

(** ** A matched term puts a word in the preprocessed text *)

Lemma append_empty s : String.append EmptyString s = s.
Proof. reflexivity. Qed.

Lemma append_String c s1 s2 :
  String.append (String c s1) s2 = String c (String.append s1 s2).
Proof. reflexivity. Qed.

Lemma prefix_split t s :
  String.prefix t s = true -> exists post, s = String.append t post.
Proof.
  revert s. induction t as [|c t IH]; intros s H.
  - exists s. reflexivity.
  - destruct s as [|c' s]; [discriminate|]. simpl in H.
    destruct (ascii_dec c c') as [->|]; [|discriminate].
    destruct (IH s H) as [post ->]. exists post. reflexivity.
Qed.

Lemma includes_split s t :
  includes s t = true ->
  exists pre post, s = String.append pre (String.append t post).
Proof.
  induction s as [|c s IH]; intros H.
  - cbn [includes] in H. rewrite orb_false_r in H.
    destruct (prefix_split _ _ H) as [post Hs]. exists EmptyString, post. exact Hs.
  - cbn [includes] in H. apply orb_prop in H as [H|H].
    + destruct (prefix_split _ _ H) as [post Hs]. exists EmptyString, post. exact Hs.
    + destruct (IH H) as (pre & post & ->). exists (String c pre), post. reflexivity.
Qed.

Lemma word_not_space c : isWordChar c = true -> isSpaceChar c = false.
Proof.
  destruct c as [[] [] [] [] [] [] [] []]; vm_compute; congruence.
Qed.

Lemma replaceNonWord_app s1 s2 :
  replaceNonWord (String.append s1 s2)
  = String.append (replaceNonWord s1) (replaceNonWord s2).
Proof. induction s1 as [|c s1 IH]; simpl; [reflexivity|]. rewrite IH. reflexivity. Qed.

Lemma length_snoc s c : String.length (snoc s c) = S (String.length s).
Proof. unfold snoc. induction s as [|c' s IH]; simpl; [reflexivity|]. rewrite IH. reflexivity. Qed.

(** Once the piece being read has two characters, the split yields a piece
    of two characters or more. *)
Lemma splitWs_go_long s cur :
  (2 <= String.length cur)%nat ->
  exists w, In w (splitWs_go s cur false) /\ (2 <= String.length w)%nat.
Proof.
  revert cur. induction s as [|c s IH]; intros cur Hlen.
  - exists cur. split; [left; reflexivity|exact Hlen].
  - cbn [splitWs_go]. destruct (isSpaceChar c).
    + exists cur. split; [left; reflexivity|exact Hlen].
    + apply IH. rewrite length_snoc. lia.
Qed.

Lemma splitWs_go_pair pre c1 c2 rest cur insep :
  isSpaceChar c1 = false -> isSpaceChar c2 = false ->
  exists w,
    In w (splitWs_go (String.append pre (String c1 (String c2 rest))) cur insep)
    /\ (2 <= String.length w)%nat.
Proof.
  intros H1 H2. revert cur insep.
  induction pre as [|c pre IH]; intros cur insep.
  - rewrite append_empty. cbn [splitWs_go]. rewrite H1, H2.
    apply splitWs_go_long. rewrite !length_snoc. lia.
  - rewrite append_String. cbn [splitWs_go].
    destruct (isSpaceChar c); [destruct insep|].
    + apply IH.
    + destruct (IH EmptyString true) as (w & Hin & Hlen).
      exists w. split; [right; exact Hin|exact Hlen].
    + apply IH.
Qed.

Lemma occursIn_preprocessText text term :
  startsWithWord term = true ->
  occursIn text term = true ->
  preprocessText text <> [].
Proof.
  unfold startsWithWord, occursIn. intros Hstart Hin.
  destruct (toLowerCase term) as [|c1 [|c2 rest]]; try discriminate.
  apply andb_prop in Hstart as [Hw1 Hw2].
  destruct (includes_split _ _ Hin) as (pre & post & Hs).
  unfold preprocessText. rewrite Hs, replaceNonWord_app, !append_String.
  cbn [replaceNonWord]. rewrite Hw1, Hw2. cbn [orb].
  destruct (splitWs_go_pair (replaceNonWord pre) c1 c2
              (replaceNonWord (String.append rest post)) EmptyString false
              (word_not_space _ Hw1) (word_not_space _ Hw2))
    as (w & Hw & Hlen).
  fold (splitWs (String.append (replaceNonWord pre)
                   (String c1 (String c2 (replaceNonWord (String.append rest post))))))
    in Hw.
  intros Hnil.
  assert (Hin' : In w (List.filter (fun word => (1 <? String.length word)%nat)
                         (splitWs (String.append (replaceNonWord pre)
                            (String c1 (String c2
                               (replaceNonWord (String.append rest post)))))))).
  { apply filter_In. split; [exact Hw|]. apply Nat.ltb_lt. lia. }
  rewrite Hnil in Hin'. exact Hin'.
Qed.

Lemma matchCount_hits text k : matchCount text k = hits text (allTerms k).
Proof.
  unfold matchCount, allTerms, hits. rewrite !List.filter_app, !length_app. lia.
Qed.

Lemma terms_startWithWord c k term :
  In (c, k) categoryKeywords -> In term (allTerms k) -> startsWithWord term = true.
Proof.
  assert (H : forallb (fun ck => forallb startsWithWord (allTerms (snd ck)))
                categoryKeywords = true)
    by (vm_compute; reflexivity).
  rewrite forallb_forall in H. intros Hin Hterm.
  specialize (H (c, k) Hin). rewrite forallb_forall in H. apply H, Hterm.
Qed.

(** A text without preprocessed words matches no term. *)
Lemma matchCount_empty_text text c k :
  In (c, k) categoryKeywords ->
  preprocessText text = [] -> matchCount text k = 0%nat.
Proof.
  intros Hin Hnil. rewrite matchCount_hits. unfold hits.
  destruct (List.filter (occursIn text) (allTerms k)) as [|term l] eqn:Hf;
    [reflexivity|].
  assert (Hterm : In term (List.filter (occursIn text) (allTerms k)))
    by (rewrite Hf; left; reflexivity).
  apply filter_In in Hterm as [Hterm Hocc].
  exfalso. eapply occursIn_preprocessText; eauto using terms_startWithWord.
Qed.

(** ** The scores as real numbers *)

Lemma vocabularyWeight_weightR word :
  vocabularyWeight word = Fin (weightR word) /\ 1 <= weightR word.
Proof.
  destruct (vocabularyWeight_ge1 word) as (r & Hr & Hge).
  unfold weightR. rewrite Hr. split; [reflexivity|exact Hge].
Qed.

Lemma get_or_Fin_0 x : get_or (Some (Fin x)) (Fin 0) = Fin x.
Proof.
  unfold get_or, truthy. destruct (Req_dec_T x 0) as [->|]; reflexivity.
Qed.

Lemma wordScore_value text word :
  get_or (calculateWeightedTfIdf text !! word) (Fin 0) = Fin (wordScoreR text word).
Proof.
  rewrite calculateWeightedTfIdf_lookup. unfold wordScoreR.
  pose proof (freq_le_length word (preprocessText text)) as Hle.
  destruct (freq word (preprocessText text)) as [|n].
  - cbn [get_or]. f_equal. change (INR 0) with 0. unfold Rdiv. ring.
  - destruct (vocabularyWeight_weightR word) as [Hw _].
    rewrite (weightedScore_present _ _ _ (weightR word)) by (lia || exact Hw).
    apply get_or_Fin_0.
Qed.

Lemma idfConstant_nonneg : 0 <= idfConstant.
Proof.
  unfold idfConstant. pose proof (pos_INR (size weightedVocabulary)) as HV.
  rewrite <- ln_1.
  destruct (Req_dec (INR (size weightedVocabulary)) 0) as [->|Hz].
  - replace (1 + 0 / 2) with 1 by lra. lra.
  - left. apply ln_increasing; lra.
Qed.

Lemma wordScoreR_nonneg text word : 0 <= wordScoreR text word.
Proof.
  unfold wordScoreR.
  pose proof (freq_le_length word (preprocessText text)) as Hle.
  pose proof idfConstant_nonneg as Hidf.
  destruct (vocabularyWeight_weightR word) as [_ Hw].
  destruct (length (preprocessText text)) as [|n] eqn:Hn.
  - replace (freq word (preprocessText text)) with 0%nat by lia.
    change (INR 0) with 0. unfold Rdiv. rewrite !Rmult_0_l. lra.
  - apply Rmult_le_pos; [apply Rmult_le_pos|lra]; [|exact Hidf].
    apply Rmult_le_pos; [apply pos_INR|].
    left. apply Rinv_0_lt_compat. apply lt_0_INR. lia.
Qed.

Lemma sumOver_ge (f : string -> R) (b : R) ws :
  (forall w, b <= f w) -> b * INR (length ws) <= sumOver f ws.
Proof.
  intros Hf. induction ws as [|w ws IH].
  - simpl. lra.
  - change (length (w :: ws)) with (S (length ws)). rewrite S_INR.
    cbn [sumOver]. specialize (Hf w). lra.
Qed.

Lemma addWord_fold_value text ws s t :
  fold_left (addWord (calculateWeightedTfIdf text)) ws (Fin s, Fin t)
  = (Fin (s + sumOver (fun w => wordScoreR text w * weightR w) ws),
     Fin (t + sumOver weightR ws)).
Proof.
  revert s t. induction ws as [|w ws IH]; intros s t.
  - simpl. rewrite !Rplus_0_r. reflexivity.
  - cbn [fold_left]. unfold addWord at 2. cbv zeta.
    destruct (vocabularyWeight_weightR w) as [Hw _].
    rewrite wordScore_value, Hw. cbn [fst snd]. rewrite nmul_Fin, !nadd_Fin.
    rewrite IH. cbn [sumOver]. f_equal; f_equal; ring.
Qed.

Lemma totalWeightR_pos c k : In (c, k) categoryKeywords -> 0 < totalWeightR k.
Proof.
  intros Hin. unfold totalWeightR.
  pose proof (sumOver_ge weightR 1 (keywordWords k)
                (fun w => proj2 (vocabularyWeight_weightR w))) as Hge.
  pose proof (keywordWords_categoryKeywords c k Hin) as Hne.
  destruct (keywordWords k) as [|w ws]; [contradiction|].
  change (length (w :: ws)) with (S (length ws)) in Hge.
  rewrite S_INR in Hge. pose proof (pos_INR (length ws)). lra.
Qed.

Lemma similarityR_nonneg text k : 0 <= similarityR text k.
Proof.
  unfold similarityR. induction (keywordWords k) as [|w ws IH]; simpl; [lra|].
  pose proof (wordScoreR_nonneg text w).
  destruct (vocabularyWeight_weightR w) as [_ Hw]. nra.
Qed.

Lemma semanticR_nonneg text c k : In (c, k) categoryKeywords -> 0 <= semanticR text k.
Proof.
  intros Hin. unfold semanticR.
  pose proof (totalWeightR_pos c k Hin). pose proof (similarityR_nonneg text k).
  apply Rmult_le_pos; [assumption|]. left. apply Rinv_0_lt_compat. assumption.
Qed.

Lemma calculateSemanticSimilarity_value text c k :
  In (c, k) categoryKeywords ->
  calculateSemanticSimilarity (calculateWeightedTfIdf text) c
  = Ok (Fin (semanticR text k)).
Proof.
  intros Hin. unfold calculateSemanticSimilarity.
  rewrite (getProperty_categoryKeywords c k Hin).
  rewrite accumulateSimilarity_flat, addWord_fold_value, !Rplus_0_l.
  fold (similarityR text k). fold (totalWeightR k).
  pose proof (totalWeightR_pos c k Hin) as Hpos.
  rewrite ngt_Fin_0, ndiv_Fin by lra. reflexivity.
Qed.

Lemma ln_succ_nonneg n : 0 <= ln (1 + INR (S n)).
Proof.
  rewrite S_INR. pose proof (pos_INR n). rewrite <- ln_1.
  left. apply ln_increasing; lra.
Qed.

Lemma contextR_nonneg text k : 0 <= contextR text k.
Proof.
  unfold contextR. destruct (length (preprocessText text)) as [|n]; [lra|].
  pose proof (ln_succ_nonneg n).
  apply Rmult_le_pos; [apply Rmult_le_pos|].
  - apply pos_INR.
  - assert (0 <= INR (matchCount text k) / INR (S n)); [|lra].
    apply Rmult_le_pos; [apply pos_INR|].
    left. apply Rinv_0_lt_compat, lt_0_INR. lia.
  - left. apply Rinv_0_lt_compat. lra.
Qed.

Lemma contextScore_value text c k :
  In (c, k) categoryKeywords ->
  get_or (analyzeContextPatterns text !! c) (Fin 0) = Fin (contextR text k).
Proof.
  intros Hin.
  rewrite (analyzeContextPatterns_lookup text c k Hin).
  rewrite (scanKeywords_counts text k (others_categoryKeywords c k Hin)).
  cbn [fst snd]. fold (accumulatedWeight text k). fold (matchCount text k).
  unfold contextR.
  destruct (length (preprocessText text)) as [|n] eqn:Hn.
  - apply length_zero_iff_nil in Hn.
    rewrite (matchCount_empty_text text c k Hin Hn), finalScore_empty.
    reflexivity.
  - rewrite finalScore_nonempty. apply get_or_Fin_0.
Qed.

Lemma combinedR_nonneg text c k : In (c, k) categoryKeywords -> 0 <= combinedR text k.
Proof.
  intros Hin. unfold combinedR.
  pose proof (semanticR_nonneg text c k Hin). pose proof (contextR_nonneg text k).
  lra.
Qed.

(** ** The combined scores *)

Lemma Map_set_fresh m k v : ~ In k (map fst m) -> Map_set m k v = (m ++ [(k, v)])%list.
Proof.
  induction m as [|[k' v'] m IH]; intros Hfresh; [reflexivity|].
  cbn [Map_set]. destruct (String.eqb_spec k' k) as [->|Hne].
  - exfalso. apply Hfresh. left. reflexivity.
  - cbn [app]. rewrite IH; [reflexivity|].
    intros Hin. apply Hfresh. right. exact Hin.
Qed.

Lemma keys_NoDup : List.NoDup (Object_keys categoryKeywords).
Proof. apply NoDup_ListNoDup, (bool_decide_unpack _). vm_compute. exact I. Qed.

Lemma combinedScores_loop text kb preds :
  (forall ck, In ck kb -> In ck categoryKeywords) ->
  List.NoDup (map fst kb) ->
  (forall ck, In ck kb -> ~ In (fst ck) (map fst preds)) ->
  forEachM
    (fun predictions category =>
       let* semanticScore :=
         calculateSemanticSimilarity (calculateWeightedTfIdf text) category in
       let contextScore := get_or (analyzeContextPatterns text !! category) (Fin 0) in
       let combinedScore :=
         nadd (nmul semanticScore (Fin 0.6)) (nmul contextScore (Fin 0.4)) in
       Ok (Map_set predictions category combinedScore))
    (map fst kb) preds
  = Ok (preds ++ map (scored text) kb)%list.
Proof.
  revert preds. induction kb as [|[c k] kb IH]; intros preds Hsub Hnd Hfresh.
  - simpl. rewrite app_nil_r. reflexivity.
  - cbn [map fst forEachM].
    assert (Hin : In (c, k) categoryKeywords) by (apply Hsub; left; reflexivity).
    rewrite (calculateSemanticSimilarity_value text c k Hin). cbn [bind].
    rewrite (contextScore_value text c k Hin). cbv zeta.
    rewrite !nmul_Fin, nadd_Fin. fold (combinedR text k).
    rewrite Map_set_fresh by (apply (Hfresh (c, k)); left; reflexivity).
    inversion Hnd as [|? ? Hnotin Hnd']; subst.
    rewrite IH.
    + rewrite <- app_assoc. reflexivity.
    + intros ck Hck. apply Hsub. right. exact Hck.
    + exact Hnd'.
    + intros ck Hck. rewrite map_app, in_app_iff. intros [Hold|Hnew].
      * apply (Hfresh ck); [right; exact Hck|exact Hold].
      * destruct Hnew as [Heq|[]]. cbn [fst] in Heq.
        apply Hnotin. rewrite Heq. apply in_map. exact Hck.
Qed.

Lemma combinedScores_value text :
  combinedScores text = Ok (map (scored text) categoryKeywords).
Proof.
  unfold combinedScores. cbv zeta. unfold Object_keys.
  rewrite combinedScores_loop.
  - reflexivity.
  - intros ck Hck. exact Hck.
  - exact keys_NoDup.
  - intros ck _ [].
Qed.

(** ** The maximum score *)

Lemma max2_Fin a b : max2 (Fin a) (Fin b) = Fin (Rmax a b).
Proof.
  unfold max2, ngt, Rmax.
  destruct (Rlt_dec a b), (Rle_dec a b); try reflexivity; try lra.
  f_equal. lra.
Qed.

Lemma fold_max2_Fin xs a :
  fold_left max2 (map Fin xs) (Fin a) = Fin (fold_left Rmax xs a).
Proof.
  revert a. induction xs as [|x xs IH]; intros a; [reflexivity|].
  cbn [map fold_left]. rewrite max2_Fin. apply IH.
Qed.

Lemma fold_Rmax_ge_init xs a : a <= fold_left Rmax xs a.
Proof.
  revert a. induction xs as [|x xs IH]; intros a; simpl; [lra|].
  eapply Rle_trans; [apply (Rmax_l a x)|apply IH].
Qed.

Lemma fold_Rmax_upper xs a x : In x xs -> x <= fold_left Rmax xs a.
Proof.
  revert a. induction xs as [|y xs IH]; intros a Hin; [contradiction|].
  cbn [fold_left]. destruct Hin as [->|Hin].
  - eapply Rle_trans; [apply (Rmax_r a x)|apply fold_Rmax_ge_init].
  - apply IH, Hin.
Qed.

Lemma fold_Rmax_attained xs a :
  fold_left Rmax xs a = a \/ In (fold_left Rmax xs a) xs.
Proof.
  revert a. induction xs as [|y xs IH]; intros a; [left; reflexivity|].
  cbn [fold_left]. destruct (IH (Rmax a y)) as [Heq|Hin].
  - rewrite Heq. unfold Rmax. destruct (Rle_dec a y); [right; left|left]; reflexivity.
  - right. right. exact Hin.
Qed.

Lemma Math_max_nonneg xs :
  xs <> [] -> Forall (fun x => 0 <= x) xs ->
  Math_max (map Fin xs) = Fin (fold_left Rmax xs 0).
Proof.
  intros Hne Hall. destruct xs as [|x xs]; [contradiction|].
  unfold Math_max. cbn [map fold_left].
  change (max2 NInf (Fin x)) with (Fin x).
  rewrite fold_max2_Fin. inversion Hall; subst.
  rewrite (Rmax_right 0 x) by assumption. reflexivity.
Qed.

Lemma categoryKeywords_nonempty : categoryKeywords <> [].
Proof. discriminate. Qed.

Lemma scoresR_nonneg text : Forall (fun x => 0 <= x) (scoresR text).
Proof.
  unfold scoresR. rewrite List.Forall_forall. intros x Hx.
  apply in_map_iff in Hx as ([c k] & <- & Hin).
  apply (combinedR_nonneg text c k Hin).
Qed.

Lemma maxScore_value text :
  Math_max (map snd (map (scored text) categoryKeywords)) = Fin (maxScoreR text).
Proof.
  rewrite map_map.
  change (map (fun x => snd (scored text x)) categoryKeywords)
    with (map (fun ck => Fin (combinedR text (snd ck))) categoryKeywords).
  rewrite <- (map_map (fun ck => combinedR text (snd ck)) Fin).
  fold (scoresR text). apply Math_max_nonneg; [|apply scoresR_nonneg].
  unfold scoresR. intros Hnil. apply map_eq_nil in Hnil.
  exact (categoryKeywords_nonempty Hnil).
Qed.

Lemma maxScoreR_nonneg text : 0 <= maxScoreR text.
Proof. apply fold_Rmax_ge_init. Qed.

Lemma combinedR_le_max text c k :
  In (c, k) categoryKeywords -> combinedR text k <= maxScoreR text.
Proof.
  intros Hin. apply fold_Rmax_upper. unfold scoresR.
  apply in_map_iff. exists (c, k). split; [reflexivity|exact Hin].
Qed.

Lemma maxScoreR_attained text :
  0 < maxScoreR text ->
  exists c k, In (c, k) categoryKeywords /\ combinedR text k = maxScoreR text.
Proof.
  intros Hpos. unfold maxScoreR in *.
  destruct (fold_Rmax_attained (scoresR text) 0) as [Heq|Hin]; [lra|].
  unfold scoresR in Hin at 2. apply in_map_iff in Hin as ([c k] & Heq & Hin).
  exists c, k. split; [exact Hin|exact Heq].
Qed.

(** ** Normalization *)

Lemma confidenceR_bounds text c k :
  In (c, k) categoryKeywords -> 0 < maxScoreR text ->
  0 <= confidenceR text k <= 100.
Proof.
  intros Hin Hpos. unfold confidenceR.
  pose proof (combinedR_nonneg text c k Hin) as H0.
  pose proof (combinedR_le_max text c k Hin) as Hle.
  assert (Hq : 0 <= combinedR text k / maxScoreR text <= 1); [|lra].
  split.
  - apply Rmult_le_pos; [exact H0|]. left. apply Rinv_0_lt_compat, Hpos.
  - apply (Rmult_le_reg_r (maxScoreR text)); [exact Hpos|].
    unfold Rdiv. rewrite Rmult_assoc, Rinv_l by lra. lra.
Qed.

Lemma Math_min_100 y : y <= 100 -> Math_min (Fin y) (Fin 100) = Fin y.
Proof.
  intros H. unfold Math_min, nlt, ngt.
  destruct (Rlt_dec 100 y); [lra|reflexivity].
Qed.

Lemma normalize_positive text c k :
  In (c, k) categoryKeywords -> 0 < maxScoreR text ->
  normalize (Fin (maxScoreR text)) (scored text (c, k))
  = {| category := c; confidence := Fin (confidenceR text k) |}.
Proof.
  intros Hin Hpos. unfold normalize, scored. cbn [fst snd].
  rewrite ndiv_Fin, nmul_Fin by lra. fold (confidenceR text k).
  rewrite Math_min_100 by (apply (confidenceR_bounds text c k Hin Hpos)).
  reflexivity.
Qed.

Lemma normalize_no_signal text c k :
  In (c, k) categoryKeywords -> maxScoreR text = 0 ->
  normalize (Fin (maxScoreR text)) (scored text (c, k))
  = {| category := c; confidence := NaN |}.
Proof.
  intros Hin Hzero. unfold normalize, scored. cbn [fst snd].
  pose proof (combinedR_nonneg text c k Hin) as H0.
  pose proof (combinedR_le_max text c k Hin) as Hle.
  replace (combinedR text k) with 0 by lra.
  rewrite Hzero, ndiv_Fin_zero, signed_inf_zero. reflexivity.
Qed.

Lemma normalized_category text :
  map category (normalized text) = Object_keys categoryKeywords.
Proof.
  unfold normalized, Object_keys. rewrite !map_map. reflexivity.
Qed.

Lemma normalized_positive text :
  0 < maxScoreR text ->
  normalized text
  = map (fun ck => {| category := fst ck; confidence := Fin (confidenceR text (snd ck)) |})
      categoryKeywords.
Proof.
  intros Hpos. unfold normalized. rewrite map_map.
  apply map_ext_in. intros [c k] Hin. apply normalize_positive; assumption.
Qed.

Lemma normalized_no_signal text :
  maxScoreR text = 0 ->
  normalized text
  = map (fun c => {| category := c; confidence := NaN |}) (Object_keys categoryKeywords).
Proof.
  intros Hzero. unfold normalized, Object_keys. rewrite !map_map.
  apply map_ext_in. intros [c k] Hin. apply normalize_no_signal; assumption.
Qed.

Lemma classifyNews_sorted text :
  classifyNews text
  = match Array_sort compareFn (normalized text) with
    | [] => Throw TypeError
    | top :: _ =>
        Ok {| top_category := category top;
              top_confidence := confidence top;
              predictions := Array_sort compareFn (normalized text) |}
    end.
Proof.
  unfold classifyNews. rewrite combinedScores_value. cbn [bind]. cbv zeta.
  rewrite maxScore_value. reflexivity.
Qed.

(** ** The sort *)

Lemma uniform_comparable l : uniform l -> comparable l.
Proof.
  intros [Hfin|Hnan] y x Hy Hx; rewrite List.Forall_forall in *.
  - destruct (Hfin y Hy) as [a Ha], (Hfin x Hx) as [b Hb].
    unfold comesAfter, compareFn, rank. rewrite Ha, Hb. cbn [nsub nneg nadd ngt rankOf].
    destruct (Rlt_dec 0 (b + - a)); split; intros; try discriminate; try reflexivity; lra.
  - unfold comesAfter, compareFn, rank. rewrite (Hnan y Hy), (Hnan x Hx).
    cbn. split; [discriminate|lra].
Qed.

Lemma insertSorted_In x l y :
  In y (insertSorted compareFn x l) <-> y = x \/ In y l.
Proof.
  induction l as [|z l IH]; cbn [insertSorted].
  - simpl. intuition.
  - destruct (comesAfter compareFn z x); cbn [In]; [intuition|].
    rewrite IH. intuition.
Qed.

Lemma insertSorted_perm x l : Permutation (insertSorted compareFn x l) (x :: l).
Proof.
  induction l as [|z l IH]; cbn [insertSorted]; [reflexivity|].
  destruct (comesAfter compareFn z x); [reflexivity|].
  rewrite IH. apply perm_swap.
Qed.

Lemma precedes_trans_rank y z x :
  precedes y z -> rank y < rank x -> precedes x z.
Proof. unfold precedes. intros [H|[H _]] Hlt; left; lra. Qed.

Lemma insertSorted_sorted x l :
  comparable (x :: l) ->
  StronglySorted precedes l ->
  Forall (fun y => (declIndex (category y) < declIndex (category x))%nat) l ->
  StronglySorted precedes (insertSorted compareFn x l).
Proof.
  intros Hcmp Hsorted Hidx.
  induction l as [|y l IH]; cbn [insertSorted].
  - constructor; constructor.
  - inversion Hsorted as [|? ? Hsl Hyl]; subst.
    inversion Hidx as [|? ? Hyx Hidx']; subst.
    assert (Hy : comesAfter compareFn y x = true <-> rank y < rank x)
      by (apply Hcmp; [right; left|left]; reflexivity).
    destruct (comesAfter compareFn y x) eqn:Hafter.
    + assert (Hlt : rank y < rank x) by (apply Hy; reflexivity).
      constructor; [exact Hsorted|]. constructor; [left; exact Hlt|].
      rewrite List.Forall_forall in *. intros z Hz.
      eapply precedes_trans_rank; [apply Hyl, Hz|exact Hlt].
    + assert (Hge : ~ rank y < rank x) by (intros H; apply Hy in H; discriminate).
      constructor.
      * apply IH; [|exact Hsl|exact Hidx'].
        intros a b Ha Hb. apply Hcmp.
        -- destruct Ha as [<-|Ha]; [left; reflexivity|right; right; exact Ha].
        -- destruct Hb as [<-|Hb]; [left; reflexivity|right; right; exact Hb].
      * rewrite List.Forall_forall in *. intros z Hz.
        apply insertSorted_In in Hz as [->|Hz]; [|apply Hyl, Hz].
        unfold precedes. destruct (Rlt_dec (rank x) (rank y)); [left; assumption|].
        right. split; [lra|exact Hyx].
Qed.

Lemma Array_sort_loop xs acc :
  comparable (acc ++ xs) ->
  StronglySorted precedes acc ->
  StronglySorted (fun a b => (declIndex (category a) < declIndex (category b))%nat) xs ->
  (forall a x, In a acc -> In x xs ->
     (declIndex (category a) < declIndex (category x))%nat) ->
  StronglySorted precedes
    (fold_left (fun sorted x => insertSorted compareFn x sorted) xs acc)
  /\ Permutation (fold_left (fun sorted x => insertSorted compareFn x sorted) xs acc)
       (acc ++ xs).
Proof.
  revert acc. induction xs as [|x xs IH]; intros acc Hcmp Hacc Hxs Hlt.
  - cbn [fold_left]. rewrite app_nil_r. split; [exact Hacc|reflexivity].
  - cbn [fold_left]. inversion Hxs as [|? ? Hxs' Hx]; subst.
    assert (Hperm : Permutation (insertSorted compareFn x acc ++ xs) (acc ++ x :: xs)).
    { rewrite insertSorted_perm. cbn [app]. apply Permutation_middle. }
    destruct (IH (insertSorted compareFn x acc)) as [Hs Hp].
    + intros a b Ha Hb. apply Hcmp.
      * eapply Permutation_in; [exact Hperm|exact Ha].
      * eapply Permutation_in; [exact Hperm|exact Hb].
    + apply insertSorted_sorted.
      * intros a b Ha Hb. apply Hcmp; apply in_or_app.
        -- destruct Ha as [<-|Ha]; [right; left; reflexivity|left; exact Ha].
        -- destruct Hb as [<-|Hb]; [right; left; reflexivity|left; exact Hb].
      * exact Hacc.
      * rewrite List.Forall_forall. intros a Ha. apply Hlt; [exact Ha|left; reflexivity].
    + exact Hxs'.
    + intros a b Ha Hb. apply insertSorted_In in Ha as [->|Ha].
      * rewrite List.Forall_forall in Hx. apply Hx, Hb.
      * apply Hlt; [exact Ha|right; exact Hb].
    + split; [exact Hs|]. rewrite Hp. exact Hperm.
Qed.

Lemma Array_sort_spec xs :
  uniform xs ->
  StronglySorted (fun a b => (declIndex (category a) < declIndex (category b))%nat) xs ->
  StronglySorted precedes (Array_sort compareFn xs)
  /\ Permutation (Array_sort compareFn xs) xs.
Proof.
  intros Hu Hxs. unfold Array_sort.
  apply (Array_sort_loop xs []); [|constructor|exact Hxs|intros a x []].
  apply uniform_comparable, Hu.
Qed.

(** ** The result of the classifier *)

Lemma StronglySorted_map_lt {A : Type} (f : A -> nat) (l : list A) :
  StronglySorted lt (map f l) -> StronglySorted (fun a b => (f a < f b)%nat) l.
Proof.
  induction l as [|a l IH]; intros H; [constructor|].
  cbn [map] in H. inversion H as [|? ? Hs Hall]; subst.
  constructor; [apply IH, Hs|].
  rewrite List.Forall_forall in *. intros b Hb. apply Hall, in_map, Hb.
Qed.

Lemma declaration_order :
  StronglySorted lt (map declIndex (Object_keys categoryKeywords)).
Proof.
  assert (H : map declIndex (Object_keys categoryKeywords) = seq 0 7)
    by (vm_compute; reflexivity).
  rewrite H. cbn [seq]. repeat (constructor; [|repeat constructor; lia]). constructor.
Qed.

Lemma normalized_declaration_order text :
  StronglySorted (fun a b => (declIndex (category a) < declIndex (category b))%nat)
    (normalized text).
Proof.
  apply (StronglySorted_map_lt (fun p => declIndex (category p))).
  rewrite <- (map_map category declIndex), normalized_category.
  exact declaration_order.
Qed.

Lemma normalized_uniform text : uniform (normalized text).
Proof.
  pose proof (maxScoreR_nonneg text) as Hge.
  destruct (Req_dec (maxScoreR text) 0) as [Hz|Hnz].
  - right. rewrite (normalized_no_signal text Hz), List.Forall_forall.
    intros p Hp. apply in_map_iff in Hp as (c & <- & _). reflexivity.
  - left. rewrite (normalized_positive text) by lra. rewrite List.Forall_forall.
    intros p Hp. apply in_map_iff in Hp as (ck & <- & _). eexists. reflexivity.
Qed.

Lemma normalized_length text : length (normalized text) = 7%nat.
Proof. unfold normalized. rewrite !length_map. reflexivity. Qed.

(** The classifier returns, for every text, the stable sort of the
    normalized predictions, headed by the reported category. *)
Lemma classifyNews_result text :
  exists top rest,
    classifyNews text
    = Ok {| top_category := category top;
            top_confidence := confidence top;
            predictions := top :: rest |}
    /\ StronglySorted precedes (top :: rest)
    /\ Permutation (top :: rest) (normalized text).
Proof.
  destruct (Array_sort_spec (normalized text) (normalized_uniform text)
              (normalized_declaration_order text)) as [Hsorted Hperm].
  rewrite classifyNews_sorted.
  destruct (Array_sort compareFn (normalized text)) as [|top rest] eqn:Hsort.
  - apply Permutation_length in Hperm. rewrite normalized_length in Hperm. discriminate.
  - exists top, rest. split; [reflexivity|]. split; assumption.
Qed.

Lemma StronglySorted_lookup {A : Type} (R : A -> A -> Prop) (l : list A) i j a b :
  StronglySorted R l -> (i < j)%nat -> l !! i = Some a -> l !! j = Some b -> R a b.
Proof.
  intros Hs. revert i j. induction Hs as [|x l Hs IH Hall]; intros i j Hij Hi Hj.
  - rewrite lookup_nil in Hi. discriminate.
  - destruct j as [|j]; [lia|]. cbn in Hj. destruct i as [|i].
    + cbn in Hi. injection Hi as <-. rewrite List.Forall_forall in Hall.
      apply Hall. apply list_elem_of_In. eapply list_elem_of_lookup_2, Hj.
    + cbn in Hi. apply (IH i j); [lia|assumption|assumption].
Qed.

(** ** Texts without signal *)

Lemma sumOver_zero (f : string -> R) ws :
  (forall w, In w ws -> f w = 0) -> sumOver f ws = 0.
Proof.
  induction ws as [|w ws IH]; intros H; [reflexivity|].
  cbn [sumOver]. rewrite (H w) by (left; reflexivity).
  rewrite IH; [lra|]. intros w' Hw'. apply H. right. exact Hw'.
Qed.

Lemma wordScoreR_absent text w :
  freq w (preprocessText text) = 0%nat -> wordScoreR text w = 0.
Proof.
  intros H. unfold wordScoreR. rewrite H. change (INR 0) with 0.
  unfold Rdiv. ring.
Qed.

Lemma semanticR_absent text k :
  forallb (fun w => (freq w (preprocessText text) =? 0)%nat) (keywordWords k) = true ->
  semanticR text k = 0.
Proof.
  intros H. rewrite forallb_forall in H. unfold semanticR, similarityR.
  rewrite sumOver_zero; [unfold Rdiv; ring|].
  intros w Hw. rewrite wordScoreR_absent; [ring|].
  apply Nat.eqb_eq, H, Hw.
Qed.

Lemma contextR_no_match text k : matchCount text k = 0%nat -> contextR text k = 0.
Proof.
  intros H. unfold contextR. destruct (length (preprocessText text)); [reflexivity|].
  assert (Hw : accumulatedWeight text k = 0%nat).
  { unfold matchCount in H. unfold accumulatedWeight. lia. }
  rewrite Hw. change (INR 0) with 0. unfold Rdiv. ring.
Qed.

Lemma noSignal_max text : noSignal text = true -> maxScoreR text = 0.
Proof.
  intros H. unfold noSignal in H. rewrite forallb_forall in H.
  unfold maxScoreR.
  destruct (fold_Rmax_attained (scoresR text) 0) as [Heq|Hin]; [exact Heq|].
  unfold scoresR in Hin at 2. apply in_map_iff in Hin as ([c k] & Heq & Hin).
  rewrite <- Heq. specialize (H (c, k) Hin). cbn [snd] in *.
  apply andb_prop in H as [Hm Hw]. apply Nat.eqb_eq in Hm.
  unfold combinedR. rewrite (semanticR_absent text k Hw), (contextR_no_match text k Hm).
  lra.
Qed.

Lemma noSignal_classifyNews text :
  noSignal text = true -> classifyNews text = Ok undefinedResult.
Proof.
  intros H. rewrite classifyNews_sorted.
  rewrite (normalized_no_signal text (noSignal_max text H)).
  reflexivity.
Qed.

Lemma NaN_not_percentage : ~ isPercentage NaN.
Proof. intros (x & Hx & _). discriminate. Qed.

(** ** C2: empty and whitespace-only input *)

(** C2, the claim fails: on the empty text and on a whitespace-only text
    [classifyNews] raises nothing and returns a result. *)
Lemma C2_empty_text_is_classified :
  classifyNews "" = Ok undefinedResult
  /\ classifyNews "   " = Ok undefinedResult.
Proof.
  split; apply noSignal_classifyNews; vm_compute; reflexivity.
Qed.

(** C2, amended: [classifyNews] never fails.  For every text, the empty
    and the whitespace-only ones included, it returns a result with one
    prediction per category, headed by the reported category and
    confidence; rejecting empty input is left to the caller. *)
Theorem C2_classifyNews_never_throws (text : string) :
  exists r,
    classifyNews text = Ok r
    /\ Permutation (map category (predictions r)) (Object_keys categoryKeywords)
    /\ head (predictions r)
       = Some {| category := top_category r; confidence := top_confidence r |}.
Proof.
  destruct (classifyNews_result text) as (top & rest & Hr & _ & Hperm).
  eexists. split; [exact Hr|]. cbn [predictions top_category top_confidence head].
  split.
  - rewrite <- (normalized_category text). apply Permutation_map, Hperm.
  - destruct top; reflexivity.
Qed.

(** ** C3 and C4: the result when every combined score is zero *)

(** C3, evaluation at the failing input: a text made of one repeated word
    that is no keyword gets a result all of whose confidences are NaN. *)
Theorem C3_repeated_nonsense_word_yields_NaN :
  classifyNews "zzz zzz zzz" = Ok undefinedResult
  /\ Forall (fun p => confidence p = NaN) (predictions undefinedResult).
Proof.
  split.
  - apply noSignal_classifyNews. vm_compute. reflexivity.
  - repeat constructor.
Qed.

(** C4, evaluation at the failing input: the text is not empty, the result
    has one prediction per category and its head is the reported category,
    but no confidence is a number of [0, 100]. *)
Theorem C4_confidence_outside_range :
  exists r,
    classifyNews "lorem ipsum dolor" = Ok r
    /\ map category (predictions r) = Object_keys categoryKeywords
    /\ head (predictions r)
       = Some {| category := top_category r; confidence := top_confidence r |}
    /\ Forall (fun p => ~ isPercentage (confidence p)) (predictions r).
Proof.
  exists undefinedResult. split; [|split; [|split]].
  - apply noSignal_classifyNews. vm_compute. reflexivity.
  - reflexivity.
  - reflexivity.
  - repeat constructor; apply NaN_not_percentage.
Qed.

(** ** C8: the order of the predictions *)

Lemma precedes_order l a b :
  uniform l -> In a l -> In b l -> precedes a b ->
  ngt (confidence b) (confidence a) = false
  /\ (confidence a = confidence b ->
      (declIndex (category a) < declIndex (category b))%nat).
Proof.
  unfold precedes, rank. intros [Hfin|Hnan] Ha Hb Hprec; rewrite List.Forall_forall in *.
  - destruct (Hfin a Ha) as [x Hx], (Hfin b Hb) as [y Hy].
    rewrite Hx, Hy in *. cbn [rankOf ngt] in *. split.
    + destruct (Rlt_dec x y); [lra|reflexivity].
    + intros [= ->]. destruct Hprec as [Hlt|[_ Hidx]]; [lra|exact Hidx].
  - rewrite (Hnan a Ha), (Hnan b Hb) in *. cbn [rankOf] in *. split; [reflexivity|].
    intros _. destruct Hprec as [Hlt|[_ Hidx]]; [lra|exact Hidx].
Qed.

Lemma uniform_perm l l' : Permutation l l' -> uniform l' -> uniform l.
Proof.
  intros Hperm [H|H]; [left|right]; rewrite List.Forall_forall in *;
    intros p Hp; apply H; eapply Permutation_in; eauto.
Qed.

(** C8: for every text the predictions come in descending order of
    confidence (no prediction is followed by one of greater confidence),
    and two predictions of equal confidence come in the declaration order
    of their categories. *)
Theorem C8_predictions_sorted_stable (text : string) :
  exists r,
    classifyNews text = Ok r
    /\ forall i j a b,
         (i < j)%nat ->
         predictions r !! i = Some a ->
         predictions r !! j = Some b ->
         ngt (confidence b) (confidence a) = false
         /\ (confidence a = confidence b ->
             (declIndex (category a) < declIndex (category b))%nat).
Proof.
  destruct (classifyNews_result text) as (top & rest & Hr & Hsorted & Hperm).
  eexists. split; [exact Hr|]. cbn [predictions].
  intros i j a b Hij Hi Hj.
  apply (precedes_order (top :: rest)).
  - eapply uniform_perm; [exact Hperm|apply normalized_uniform].
  - apply list_elem_of_In. eapply list_elem_of_lookup_2, Hi.
  - apply list_elem_of_In. eapply list_elem_of_lookup_2, Hj.
  - eapply StronglySorted_lookup; eauto.
Qed.

(** ** C9: the confidence of the winner *)

Lemma confidenceR_max text k :
  0 < maxScoreR text -> combinedR text k = maxScoreR text -> confidenceR text k = 100.
Proof. intros Hpos Heq. unfold confidenceR. rewrite Heq. field. lra. Qed.

Lemma In_normalized_positive text p :
  0 < maxScoreR text -> In p (normalized text) ->
  exists c k, In (c, k) categoryKeywords
              /\ p = {| category := c; confidence := Fin (confidenceR text k) |}.
Proof.
  intros Hpos Hp. rewrite (normalized_positive text Hpos) in Hp.
  apply in_map_iff in Hp as ([c k] & <- & Hin). exists c, k. split; [exact Hin|reflexivity].
Qed.

(** When the maximum is positive the head of the sorted predictions has
    confidence 100 and belongs to a category whose score is the maximum. *)
Lemma top_confidence_100 text top rest :
  0 < maxScoreR text ->
  StronglySorted precedes (top :: rest) ->
  Permutation (top :: rest) (normalized text) ->
  exists c k, In (c, k) categoryKeywords
              /\ combinedR text k = maxScoreR text
              /\ top = {| category := c; confidence := Fin 100 |}.
Proof.
  intros Hpos Hsorted Hperm.
  destruct (maxScoreR_attained text Hpos) as (cm & km & Hinm & Hmax).
  assert (Htop : In top (normalized text))
    by (eapply Permutation_in; [exact Hperm|left; reflexivity]).
  destruct (In_normalized_positive text top Hpos Htop) as (c & k & Hin & ->).
  pose proof (confidenceR_bounds text c k Hin Hpos) as Hb.
  assert (Hge : 100 <= confidenceR text k).
  { set (best := {| category := cm; confidence := Fin (confidenceR text km) |}).
    assert (Hbest : In best (normalized text)).
    { rewrite (normalized_positive text Hpos). apply in_map_iff.
      exists (cm, km). split; [reflexivity|exact Hinm]. }
    apply (Permutation_in _ (Permutation_sym Hperm)) in Hbest.
    rewrite <- (confidenceR_max text km Hpos Hmax).
    destruct Hbest as [Heq|Hrest].
    - injection Heq as _ ->. lra.
    - inversion Hsorted as [|? ? _ Hall]; subst.
      rewrite List.Forall_forall in Hall. specialize (Hall best Hrest).
      unfold precedes, rank, best in Hall. cbn [confidence rankOf] in Hall.
      destruct Hall as [Hlt|[Heq _]]; lra. }
  assert (Heq : confidenceR text k = 100) by lra.
  exists c, k. split; [exact Hin|]. split; [|rewrite Heq; reflexivity].
  unfold confidenceR in Heq.
  assert (combinedR text k = combinedR text k / maxScoreR text * maxScoreR text)
    by (field; lra).
  nra.
Qed.

(** C9: when the maximum of the combined scores is strictly positive, the
    confidence reported for the winning category is exactly 100. *)
Theorem C9_top_confidence_is_100 (text : string) (scores : list (string * num)) :
  combinedScores text = Ok scores ->
  ngt (Math_max (map snd scores)) (Fin 0) = true ->
  exists r,
    classifyNews text = Ok r
    /\ top_confidence r = Fin 100
    /\ head (predictions r)
       = Some {| category := top_category r; confidence := Fin 100 |}.
Proof.
  intros Hscores Hmax. rewrite combinedScores_value in Hscores.
  assert (Heq : scores = map (scored text) categoryKeywords) by congruence.
  subst scores. rewrite maxScore_value in Hmax.
  assert (Hpos : 0 < maxScoreR text).
  { cbn [ngt] in Hmax. destruct (Rlt_dec 0 (maxScoreR text)); [assumption|discriminate]. }
  destruct (classifyNews_result text) as (top & rest & Hr & Hsorted & Hperm).
  destruct (top_confidence_100 text top rest Hpos Hsorted Hperm)
    as (c & k & _ & _ & ->).
  eexists. split; [exact Hr|]. split; reflexivity.
Qed.

(** ** Texts with a dominant category *)

Lemma contextR_weightedMatches text k :
  preprocessText text <> [] ->
  contextR text k
  = INR (weightedMatches text k)
    / (INR (length (preprocessText text))
       * (1 + ln (1 + INR (length (preprocessText text))))).
Proof.
  intros Hne. unfold contextR, weightedMatches.
  destruct (preprocessText text) as [|w ws]; [contradiction|].
  change (length (w :: ws)) with (S (length ws)).
  pose proof (ln_succ_nonneg (length ws)) as Hln.
  assert (0 < INR (S (length ws))) by (apply lt_0_INR; lia).
  rewrite mult_INR, plus_INR. field. split; lra.
Qed.

Lemma contextR_lt text k k' :
  preprocessText text <> [] ->
  (weightedMatches text k < weightedMatches text k')%nat ->
  contextR text k < contextR text k'.
Proof.
  intros Hne Hlt. rewrite !contextR_weightedMatches by exact Hne.
  destruct (preprocessText text) as [|w ws]; [contradiction|].
  change (length (w :: ws)) with (S (length ws)).
  pose proof (ln_succ_nonneg (length ws)) as Hln.
  assert (0 < INR (S (length ws))) by (apply lt_0_INR; lia).
  apply lt_INR in Hlt.
  apply Rmult_lt_compat_r; [|exact Hlt].
  apply Rinv_0_lt_compat. apply Rmult_lt_0_compat; lra.
Qed.

Lemma getProperty_In kb c k : getProperty kb c = Some k -> In (c, k) kb.
Proof.
  induction kb as [|[c' k'] kb IH]; [discriminate|]. cbn [getProperty].
  destruct (String.eqb_spec c' c) as [->|Hne].
  - intros [= ->]. left. reflexivity.
  - intros H. right. apply IH, H.
Qed.

Lemma dominant_spec text c :
  dominant text c = true ->
  exists kc,
    In (c, kc) categoryKeywords
    /\ preprocessText text <> []
    /\ forall c' k, In (c', k) categoryKeywords -> c' <> c ->
         combinedR text k < combinedR text kc.
Proof.
  unfold dominant. destruct (getProperty categoryKeywords c) as [kc|] eqn:Hget;
    [|discriminate].
  intros H. apply andb_prop in H as [Hlen Hall].
  assert (Hne : preprocessText text <> []).
  { intros Hnil. rewrite Hnil in Hlen. discriminate. }
  pose proof (getProperty_In _ _ _ Hget) as Hin.
  exists kc. split; [exact Hin|]. split; [exact Hne|].
  intros c' k Hin' Hdiff. rewrite forallb_forall in Hall.
  specialize (Hall (c', k) Hin'). cbn [fst snd] in Hall.
  destruct (String.eqb_spec c' c) as [|_]; [contradiction|]. cbn [orb] in Hall.
  apply andb_prop in Hall as [Hlt Hwords]. apply Nat.ltb_lt in Hlt.
  unfold combinedR. rewrite (semanticR_absent text k Hwords).
  pose proof (semanticR_nonneg text c kc Hin).
  pose proof (contextR_lt text k kc Hne Hlt). lra.
Qed.

Lemma dominant_positive text c : dominant text c = true -> 0 < maxScoreR text.
Proof.
  intros H. destruct (dominant_spec text c H) as (kc & Hin & Hne & Hlt).
  pose proof (combinedR_le_max text c kc Hin) as Hle.
  pose proof (maxScoreR_nonneg text) as Hge.
  destruct (Req_dec (maxScoreR text) 0) as [Hz|]; [|lra].
  exfalso.
  assert (Hother : exists c' k, In (c', k) categoryKeywords /\ c' <> c).
  { destruct (String.eqb_spec c "Technology") as [->|Hd].
    - eexists "Business", _. split; [right; left; reflexivity|discriminate].
    - eexists "Technology", _. split; [left; reflexivity|congruence]. }
  destruct Hother as (c' & k & Hin' & Hdiff).
  pose proof (Hlt c' k Hin' Hdiff). pose proof (combinedR_nonneg text c' k Hin'). lra.
Qed.

Lemma dominant_classifyNews text c :
  dominant text c = true ->
  exists rest,
    classifyNews text
    = Ok {| top_category := c;
            top_confidence := Fin 100;
            predictions := {| category := c; confidence := Fin 100 |} :: rest |}
    /\ Permutation (c :: map category rest) (Object_keys categoryKeywords).
Proof.
  intros H. pose proof (dominant_positive text c H) as Hpos.
  destruct (dominant_spec text c H) as (kc & Hin & Hne & Hlt).
  destruct (classifyNews_result text) as (top & rest & Hr & Hsorted & Hperm).
  destruct (top_confidence_100 text top rest Hpos Hsorted Hperm)
    as (c' & k & Hin' & Hmax & ->).
  assert (Hc : c' = c).
  { destruct (String.eqb_spec c' c) as [|Hdiff]; [assumption|]. exfalso.
    pose proof (Hlt c' k Hin' Hdiff). pose proof (combinedR_le_max text c kc Hin). lra. }
  subst c'. exists rest. split; [exact Hr|].
  rewrite <- (normalized_category text).
  apply (Permutation_map category) in Hperm. exact Hperm.
Qed.

(** ** C5: the Federal Reserve scenario *)

(** C5: on the scenario text [classifyNews] reports Business, and the
    predictions cover the 7 categories, one prediction each. *)
Theorem C5_federal_reserve_is_Business :
  exists r,
    classifyNews
      "The Federal Reserve raised interest rates amid inflation concerns affecting the stock market"
    = Ok r
    /\ top_category r = "Business"
    /\ head (predictions r) = Some {| category := "Business"; confidence := Fin 100 |}
    /\ Permutation (map category (predictions r))
         ["Technology"; "Business"; "Politics"; "Sports"; "Entertainment";
          "Health"; "Science"].
Proof.
  destruct (dominant_classifyNews
              "The Federal Reserve raised interest rates amid inflation concerns affecting the stock market"
              "Business") as (rest & Hr & Hperm).
  - vm_compute. reflexivity.
  - eexists. split; [exact Hr|]. split; [reflexivity|]. split; [reflexivity|].
    exact Hperm.
Qed.

(** C9 applied to a text that names the stock market. *)
Lemma C9_top_confidence_is_100_witness :
  combinedScores "stock market" = Ok (map (scored "stock market") categoryKeywords)
  /\ ngt (Math_max (map snd (map (scored "stock market") categoryKeywords))) (Fin 0)
     = true
  /\ exists r,
       classifyNews "stock market" = Ok r
       /\ top_confidence r = Fin 100
       /\ head (predictions r)
          = Some {| category := top_category r; confidence := Fin 100 |}.
Proof.
  assert (H1 : combinedScores "stock market"
               = Ok (map (scored "stock market") categoryKeywords))
    by apply combinedScores_value.
  assert (H2 : ngt (Math_max (map snd (map (scored "stock market") categoryKeywords)))
                 (Fin 0) = true).
  { rewrite maxScore_value. apply ngt_Fin_0.
    apply (dominant_positive "stock market" "Business"). vm_compute. reflexivity. }
  split; [exact H1|]. split; [exact H2|].
  exact (C9_top_confidence_is_100 "stock market" _ H1 H2).
Defined.

(** When some combined score is positive every confidence is a percentage. *)
Lemma classifyNews_percentages (text : string) :
  0 < maxScoreR text ->
  exists r,
    classifyNews text = Ok r
    /\ length (predictions r) = 7%nat
    /\ Forall (fun p => isPercentage (confidence p)) (predictions r).
Proof.
  intros Hpos.
  destruct (classifyNews_result text) as (top & rest & Hr & _ & Hperm).
  eexists. split; [exact Hr|]. cbn [predictions]. split.
  - rewrite (Permutation_length Hperm). apply normalized_length.
  - rewrite List.Forall_forall. intros p Hp.
    apply (Permutation_in _ Hperm) in Hp.
    destruct (In_normalized_positive text p Hpos Hp) as (c & k & Hin & ->).
    exists (confidenceR text k). split; [reflexivity|].
    apply (confidenceR_bounds text c k Hin Hpos).
Qed.

(** * Further properties of the classifier *)

(** ** The words of a text *)

Lemma allChars_snoc p s c : allChars p (snoc s c) = allChars p s && p c.
Proof.
  unfold snoc. induction s as [|c' s IH].
  - rewrite append_empty. simpl. rewrite andb_true_r. reflexivity.
  - rewrite append_String. cbn [allChars]. rewrite IH, andb_assoc. reflexivity.
Qed.

Lemma splitWs_go_chars (p : ascii -> bool) s cur insep :
  allChars (fun c => isSpaceChar c || p c) s = true ->
  allChars p cur = true ->
  Forall (fun w => allChars p w = true) (splitWs_go s cur insep).
Proof.
  revert cur insep. induction s as [|c s IH]; intros cur insep Hs Hcur.
  - repeat constructor. exact Hcur.
  - cbn [allChars] in Hs. apply andb_prop in Hs as [Hc Hs].
    cbn [splitWs_go]. destruct (isSpaceChar c) eqn:Hsp.
    + destruct insep; [apply IH; auto|constructor; [exact Hcur|apply IH; auto]].
    + apply IH; [exact Hs|]. rewrite allChars_snoc, Hcur. exact Hc.
Qed.

Lemma lowerChar_word c :
  isWordChar (lowerChar c) = true -> isLowerWordChar (lowerChar c) = true.
Proof. destruct c as [[] [] [] [] [] [] [] []]; vm_compute; congruence. Qed.

Lemma replaceNonWord_toLowerCase_chars text :
  allChars (fun c => isSpaceChar c || isLowerWordChar c)
    (replaceNonWord (toLowerCase text)) = true.
Proof.
  induction text as [|c text IH]; [reflexivity|].
  cbn [toLowerCase replaceNonWord allChars]. rewrite IH, andb_true_r.
  destruct (isWordChar (lowerChar c)) eqn:Hw.
  - cbn [orb]. rewrite (lowerChar_word c Hw). apply orb_true_r.
  - cbn [orb]. destruct (isSpaceChar (lowerChar c)) eqn:Hs.
    + rewrite Hs. reflexivity.
    + reflexivity.
Qed.

(** X1: every word returned by [preprocessText] has two characters or
    more, all of them digits, underscores or small letters: no capital, no
    punctuation, no white space and no character beyond ASCII is left. *)
Theorem X1_preprocessText_words (text : string) :
  Forall
    (fun word =>
       (2 <= String.length word)%nat /\ allChars isLowerWordChar word = true)
    (preprocessText text).
Proof.
  rewrite List.Forall_forall. intros word Hin. unfold preprocessText in Hin.
  apply filter_In in Hin as [Hin Hlen]. apply Nat.ltb_lt in Hlen.
  split; [lia|].
  pose proof (splitWs_go_chars isLowerWordChar (replaceNonWord (toLowerCase text))
                EmptyString false (replaceNonWord_toLowerCase_chars text) eq_refl)
    as Hall.
  rewrite List.Forall_forall in Hall. apply Hall, Hin.
Qed.

Lemma lowerChar_idempotent c : lowerChar (lowerChar c) = lowerChar c.
Proof. destruct c as [[] [] [] [] [] [] [] []]; reflexivity. Qed.

Lemma toLowerCase_idempotent s : toLowerCase (toLowerCase s) = toLowerCase s.
Proof.
  induction s as [|c s IH]; [reflexivity|].
  cbn [toLowerCase]. rewrite lowerChar_idempotent, IH. reflexivity.
Qed.

Lemma preprocessText_toLowerCase text :
  preprocessText (toLowerCase text) = preprocessText text.
Proof. unfold preprocessText. rewrite toLowerCase_idempotent. reflexivity. Qed.

Lemma calculateWeightedTfIdf_toLowerCase text :
  calculateWeightedTfIdf (toLowerCase text) = calculateWeightedTfIdf text.
Proof. unfold calculateWeightedTfIdf. rewrite preprocessText_toLowerCase. reflexivity. Qed.

Lemma scanKeywords_toLowerCase text k :
  scanKeywords (toLowerCase text) k = scanKeywords text k.
Proof.
  unfold scanKeywords. apply fold_left_ext_in. intros acc [type terms] _.
  apply fold_left_ext_in. intros acc' term _.
  unfold scanTerm. rewrite toLowerCase_idempotent. reflexivity.
Qed.

Lemma analyzeContextPatterns_toLowerCase text :
  analyzeContextPatterns (toLowerCase text) = analyzeContextPatterns text.
Proof.
  unfold analyzeContextPatterns. cbv zeta. rewrite preprocessText_toLowerCase.
  apply fold_left_ext_in. intros scores [c k] _.
  rewrite scanKeywords_toLowerCase. reflexivity.
Qed.

(** X2: the classifier is insensitive to case: a text and its lower-cased
    form get the same result, category, confidences and order. *)
Theorem X2_classifyNews_case_insensitive (text : string) :
  classifyNews (toLowerCase text) = classifyNews text.
Proof.
  unfold classifyNews, combinedScores. cbv zeta.
  rewrite calculateWeightedTfIdf_toLowerCase, analyzeContextPatterns_toLowerCase.
  reflexivity.
Qed.

(** ** Separators *)








(** ** The entries of the weighted vocabulary *)

Lemma wordsOf_word w g term word :
  In word (map occ_word (wordsOf w g term))
  <-> In word (map toLowerCase (splitSpace term)).
Proof. unfold wordsOf. rewrite map_map. reflexivity. Qed.

Lemma occ_word_flat_map w g terms word :
  In word (map occ_word (flat_map (wordsOf w g) terms))
  <-> In word (flat_map (fun term => map toLowerCase (splitSpace term)) terms).
Proof.
  induction terms as [|t terms IH]; [reflexivity|].
  cbn [flat_map]. rewrite map_app, !in_app_iff, IH, wordsOf_word. reflexivity.
Qed.

Lemma occ_word_others entries word :
  forallb (fun entry => negb (isPrimaryOrSecondary (fst entry))) entries = true ->
  In word
    (map occ_word
       (flat_map
          (fun entry =>
             if negb (isPrimaryOrSecondary (fst entry))
             then flat_map (wordsOf (Fin 1.5) true) (snd entry) else [])
          entries))
  <-> In word
        (flat_map (fun term => map toLowerCase (splitSpace term))
           (concat (map snd entries))).
Proof.
  induction entries as [|[key terms] entries IH]; intros Hall; [reflexivity|].
  cbn [forallb fst] in Hall. apply andb_prop in Hall as [Hkey Hall].
  cbn [flat_map map concat fst snd]. rewrite Hkey.
  rewrite map_app, flat_map_app, !in_app_iff, (IH Hall), occ_word_flat_map.
  reflexivity.
Qed.

Lemma occurrencesOf_words k word :
  forallb (fun entry => negb (isPrimaryOrSecondary (fst entry))) (others k) = true ->
  In word (map occ_word (occurrencesOf k))
  <-> In word (flat_map (fun term => map toLowerCase (splitSpace term)) (allTerms k)).
Proof.
  intros Hall. unfold occurrencesOf, allTerms, otherTerms, Object_entries.
  rewrite !map_app, !flat_map_app, !in_app_iff, !occ_word_flat_map.
  cbn [flat_map fst snd]. change (negb (isPrimaryOrSecondary "primary")) with false.
  change (negb (isPrimaryOrSecondary "secondary")) with false. cbv iota.
  rewrite !app_nil_l, (occ_word_others _ _ Hall). reflexivity.
Qed.

Lemma occurrences_words kb word :
  (forall c k, In (c, k) kb ->
     forallb (fun entry => negb (isPrimaryOrSecondary (fst entry))) (others k) = true) ->
  In word (map occ_word (occurrences kb)) <-> In word (termWords kb).
Proof.
  unfold occurrences, termWords. induction kb as [|[c k] kb IH]; intros Hall; [reflexivity|].
  cbn [map flat_map snd]. rewrite map_app, !in_app_iff, IH.
  - rewrite (occurrencesOf_words k word); [reflexivity|].
    apply (Hall c k). left. reflexivity.
  - intros c' k' Hin. apply (Hall c' k'). right. exact Hin.
Qed.

Lemma resolvedWeight_None word occs :
  resolvedWeight word occs = None <-> ~ In word (map occ_word occs).
Proof.
  unfold resolvedWeight, lastUnguarded, firstGuarded. split.
  - intros Hnone Hin. apply in_map_iff in Hin as (o & Hword & Hin).
    destruct (occ_guarded o) eqn:Hg.
    + assert (Hf : In o (List.filter
                           (fun o => String.eqb (occ_word o) word && occ_guarded o) occs)).
      { apply filter_In. split; [exact Hin|]. rewrite Hword, String.eqb_refl, Hg. reflexivity. }
      destruct (last _); [discriminate|]. simpl in Hnone.
      destruct (List.filter (fun o => String.eqb (occ_word o) word && occ_guarded o) occs);
        [contradiction|discriminate].
    + assert (Hf : In o (List.filter
                           (fun o => String.eqb (occ_word o) word && negb (occ_guarded o))
                           occs)).
      { apply filter_In. split; [exact Hin|]. rewrite Hword, String.eqb_refl, Hg. reflexivity. }
      destruct (last (List.filter
                        (fun o => String.eqb (occ_word o) word && negb (occ_guarded o)) occs))
        as [o'|] eqn:Hl; [discriminate|].
      apply last_None in Hl. rewrite Hl in Hf. contradiction.
  - intros Hnot.
    assert (Hempty : forall p : Occurrence -> bool,
               List.filter (fun o => String.eqb (occ_word o) word && p o) occs = []).
    { intros p. destruct (List.filter _ occs) as [|o l] eqn:Hf; [reflexivity|]. exfalso.
      assert (Hin : In o (List.filter (fun o => String.eqb (occ_word o) word && p o) occs))
        by (rewrite Hf; left; reflexivity).
      apply filter_In in Hin as [Hin Hw]. apply andb_prop in Hw as [Hw _].
      apply String.eqb_eq in Hw. apply Hnot, in_map_iff. exists o. split; assumption. }
    rewrite (Hempty (fun o => negb (occ_guarded o))), (Hempty occ_guarded). reflexivity.
Qed.

Lemma vocabularyWeight_lookup word :
  match weightedVocabulary !! word with
  | Some v => validWeight v /\ vocabularyWeight word = v
  | None => vocabularyWeight word = Fin 1.0
  end.
Proof.
  destruct (weightedVocabulary !! word) as [v|] eqn:Hv.
  - pose proof (weightedVocabulary_valid word v Hv) as Hvalid.
    split; [exact Hvalid|]. unfold vocabularyWeight. rewrite Hv. unfold get_or.
    destruct Hvalid as [-> | [-> | ->]]; rewrite truthy_Fin_nonzero by lra; reflexivity.
  - unfold vocabularyWeight. rewrite Hv. reflexivity.
Qed.

(** X4: the weighted vocabulary has an entry exactly for the lower-cased
    words of the terms of the knowledge base; every stored weight is 3.0,
    2.0 or 1.5, so the fallback [|| 1.0] is taken for the words without
    entry and only for them. *)
Theorem X4_weightedVocabulary_entries (word : string) :
  (weightedVocabulary !! word <> None <-> In word (termWords categoryKeywords))
  /\ match weightedVocabulary !! word with
     | Some v =>
         (v = Fin 3.0 \/ v = Fin 2.0 \/ v = Fin 1.5) /\ vocabularyWeight word = v
     | None => vocabularyWeight word = Fin 1.0
     end.
Proof.
  split; [|apply vocabularyWeight_lookup].
  rewrite <- (occurrences_words categoryKeywords word others_categoryKeywords).
  unfold weightedVocabulary, createWeightedVocabulary.
  rewrite vocabularyOf_assign, assign_all_lookup.
  pose proof (resolvedWeight_None word (occurrences categoryKeywords)) as Hnone.
  destruct (in_dec String.string_dec word (map occ_word (occurrences categoryKeywords)))
    as [Hin|Hout].
  - split; [intros _; exact Hin|]. intros _ Heq. apply Hnone in Heq. contradiction.
  - split; [|contradiction]. intros Hsome. exfalso. apply Hsome, Hnone, Hout.
Qed.

(** ** The range of the TF-IDF scores *)

Lemma idfConstant_value : idfConstant = ln 142.
Proof.
  unfold idfConstant. rewrite weightedVocabulary_size, INR_IZR_INZ.
  change (Z.of_nat 282) with 282%Z. f_equal. lra.
Qed.

Lemma idfConstant_pos : 0 < idfConstant.
Proof. rewrite idfConstant_value, <- ln_1. apply ln_increasing; lra. Qed.

Lemma weightR_range word : 1 <= weightR word <= 3.
Proof.
  destruct (vocabularyWeight_weightR word) as [Hw Hge]. split; [exact Hge|].
  destruct (vocabularyWeight_cases word) as [H | [H | [H | H]]];
    unfold weightR; rewrite H; lra.
Qed.

Lemma freq_In word words : (0 < freq word words)%nat <-> In word words.
Proof.
  unfold freq. induction words as [|w words IH]; simpl; [split; [lia|tauto]|].
  destruct (String.eqb_spec word w) as [->|Hne]; simpl.
  - split; [left; reflexivity|lia].
  - rewrite IH. split; [tauto|]. intros [Heq|Hin]; [congruence|exact Hin].
Qed.

Lemma tf_range word words :
  (0 < freq word words)%nat ->
  0 < INR (freq word words) / INR (length words) <= 1.
Proof.
  intros Hpos. pose proof (freq_le_length word words) as Hle.
  assert (HN : 0 < INR (length words)) by (apply lt_0_INR; lia).
  assert (HF : 0 < INR (freq word words)) by (apply lt_0_INR; lia).
  apply le_INR in Hle. split.
  - apply Rmult_lt_0_compat; [exact HF|apply Rinv_0_lt_compat, HN].
  - apply (Rmult_le_reg_r (INR (length words))); [exact HN|].
    unfold Rdiv. rewrite Rmult_assoc, Rinv_l by lra. lra.
Qed.

Lemma wordScoreR_range text word :
  In word (preprocessText text) -> 0 < wordScoreR text word <= 3 * idfConstant.
Proof.
  intros Hin. apply freq_In in Hin. unfold wordScoreR.
  pose proof (tf_range word (preprocessText text) Hin) as Htf.
  pose proof idfConstant_pos as Hidf. pose proof (weightR_range word) as Hw.
  set (tf := INR (freq word (preprocessText text)) / INR (length (preprocessText text))) in *.
  split.
  - apply Rmult_lt_0_compat; [apply Rmult_lt_0_compat|]; lra.
  - assert (tf * idfConstant <= 1 * idfConstant)
      by (apply Rmult_le_compat_r; lra).
    assert (tf * idfConstant * weightR word <= tf * idfConstant * 3).
    { apply Rmult_le_compat_l; [|lra]. apply Rmult_le_pos; lra. }
    lra.
Qed.


(** ** The semantic similarity *)

Lemma getProperty_None kb c :
  getProperty kb c = None <-> ~ In c (Object_keys kb).
Proof.
  unfold Object_keys. induction kb as [|[c' k'] kb IH]; cbn [getProperty map fst In].
  - tauto.
  - destruct (String.eqb_spec c' c) as [->|Hne].
    + split; [discriminate|]. intros H. exfalso. apply H. left. reflexivity.
    + rewrite IH. tauto.
Qed.


Lemma sumOver_nonneg (f : string -> R) ws :
  (forall w, 0 <= f w) -> 0 <= sumOver f ws.
Proof.
  intros Hf. induction ws as [|w ws IH]; simpl; [lra|]. specialize (Hf w). lra.
Qed.

Lemma sumOver_le (f g : string -> R) ws :
  (forall w, f w <= g w) -> sumOver f ws <= sumOver g ws.
Proof.
  intros Hfg. induction ws as [|w ws IH]; simpl; [lra|]. specialize (Hfg w). lra.
Qed.

Lemma sumOver_scale (f : string -> R) a ws :
  sumOver (fun w => a * f w) ws = a * sumOver f ws.
Proof. induction ws as [|w ws IH]; simpl; [ring|]. rewrite IH. ring. Qed.

Lemma sumOver_zero_iff (f : string -> R) ws :
  (forall w, 0 <= f w) ->
  sumOver f ws = 0 <-> Forall (fun w => f w = 0) ws.
Proof.
  intros Hf. induction ws as [|w ws IH]; simpl.
  - split; [constructor|reflexivity].
  - pose proof (Hf w). pose proof (sumOver_nonneg f ws Hf). split.
    + intros Hsum. constructor; [lra|]. apply IH. lra.
    + intros Hall. inversion Hall as [|? ? Hw Hws]; subst.
      apply IH in Hws. lra.
Qed.

Lemma wordScoreR_le text word : wordScoreR text word <= 3 * idfConstant.
Proof.
  destruct (in_dec String.string_dec word (preprocessText text)) as [Hin|Hout].
  - apply wordScoreR_range, Hin.
  - rewrite wordScoreR_absent.
    + pose proof idfConstant_pos. lra.
    + destruct (freq word (preprocessText text)) eqn:Hf; [reflexivity|].
      exfalso. apply Hout, freq_In. lia.
Qed.

Lemma wordScoreR_zero_iff text word :
  wordScoreR text word * weightR word = 0 <-> ~ In word (preprocessText text).
Proof.
  pose proof (weightR_range word) as Hw. split.
  - intros Hz Hin. pose proof (wordScoreR_range text word Hin). nra.
  - intros Hout. rewrite wordScoreR_absent; [ring|].
    destruct (freq word (preprocessText text)) eqn:Hf; [reflexivity|].
    exfalso. apply Hout, freq_In. lia.
Qed.

Lemma semanticR_le text c k :
  In (c, k) categoryKeywords -> semanticR text k <= 3 * idfConstant.
Proof.
  intros Hin. unfold semanticR, similarityR.
  pose proof (totalWeightR_pos c k Hin) as Hpos.
  apply (Rmult_le_reg_r (totalWeightR k)); [exact Hpos|].
  unfold Rdiv. rewrite Rmult_assoc, Rinv_l, Rmult_1_r by lra.
  unfold totalWeightR. rewrite <- sumOver_scale. apply sumOver_le.
  intros w. pose proof (wordScoreR_le text w). pose proof (weightR_range w).
  apply Rmult_le_compat_r; lra.
Qed.

Lemma semanticR_zero_iff text c k :
  In (c, k) categoryKeywords ->
  semanticR text k = 0
  <-> Forall (fun w => ~ In w (preprocessText text)) (keywordWords k).
Proof.
  intros Hin. pose proof (totalWeightR_pos c k Hin) as Hpos.
  assert (Hsim : semanticR text k = 0 <-> similarityR text k = 0).
  { unfold semanticR. split; intros H.
    - assert (similarityR text k = similarityR text k / totalWeightR k * totalWeightR k)
        by (field; lra).
      nra.
    - rewrite H. unfold Rdiv. ring. }
  rewrite Hsim. unfold similarityR. rewrite sumOver_zero_iff.
  - rewrite !List.Forall_forall. split; intros H w Hw; apply wordScoreR_zero_iff, H, Hw.
  - intros w. pose proof (wordScoreR_nonneg text w). pose proof (weightR_range w). nra.
Qed.

(** X7: for each of the 7 categories the semantic similarity of a text is
    a number between 0 and [3 * ln 142], and it is 0 exactly when none of
    the category's keyword words is a word of the text. *)
Theorem X7_semantic_similarity_range (text : string) :
  Forall
    (fun ck =>
       exists s,
         calculateSemanticSimilarity (calculateWeightedTfIdf text) (fst ck) = Ok (Fin s)
         /\ 0 <= s <= 3 * ln 142
         /\ (s = 0 <-> Forall (fun w => ~ In w (preprocessText text))
                         (keywordWords (snd ck))))
    categoryKeywords.
Proof.
  rewrite List.Forall_forall. intros [c k] Hin. cbn [fst snd].
  exists (semanticR text k). split; [apply calculateSemanticSimilarity_value, Hin|].
  split; [|apply (semanticR_zero_iff text c k Hin)].
  rewrite <- idfConstant_value.
  split; [apply (semanticR_nonneg text c k Hin)|apply (semanticR_le text c k Hin)].
Qed.

(** ** The context scores *)

Lemma analyzeContextPatterns_lookup_any text c :
  analyzeContextPatterns text !! c
  = match getProperty (rev categoryKeywords) c with
    | Some k =>
        Some (finalScore (fst (scanKeywords text k)) (snd (scanKeywords text k))
                (length (preprocessText text)))
    | None => None
    end.
Proof.
  unfold analyzeContextPatterns. cbv zeta.
  rewrite (fold_left_ext_in _
             (fun scores '(category, keywords) =>
                <[category := (fun k => finalScore (fst (scanKeywords text k))
                                          (snd (scanKeywords text k))
                                          (length (preprocessText text))) keywords]>
                  scores)).
  - rewrite fold_set_lookup, lookup_empty. reflexivity.
  - intros acc [c' k'] _. destruct (scanKeywords text k'); reflexivity.
Qed.

Lemma Object_keys_rev kb c :
  In c (Object_keys (rev kb)) <-> In c (Object_keys kb).
Proof. unfold Object_keys. rewrite map_rev. symmetry. apply in_rev. Qed.

Lemma accumulatedWeight_bounds text k :
  (2 * matchCount text k <= accumulatedWeight text k <= 4 * matchCount text k)%nat.
Proof. unfold accumulatedWeight, matchCount. lia. Qed.

Lemma contextR_zero_iff text k :
  preprocessText text <> [] ->
  contextR text k = 0 <-> matchCount text k = 0%nat.
Proof.
  intros Hne. split; [|apply contextR_no_match].
  rewrite (contextR_weightedMatches text k Hne). intros Hz.
  destruct (matchCount text k) as [|m] eqn:Hm; [reflexivity|]. exfalso.
  pose proof (accumulatedWeight_bounds text k) as Hb.
  assert (Hpos : (0 < weightedMatches text k)%nat) by (unfold weightedMatches; nia).
  apply lt_INR in Hpos. change (INR 0) with 0 in Hpos.
  destruct (preprocessText text) as [|w ws]; [contradiction|].
  change (length (w :: ws)) with (S (length ws)) in Hz.
  pose proof (ln_succ_nonneg (length ws)) as Hln.
  assert (HN : 0 < INR (S (length ws))) by (apply lt_0_INR; lia).
  assert (HD : 0 < INR (S (length ws)) * (1 + ln (1 + INR (S (length ws)))))
    by (apply Rmult_lt_0_compat; lra).
  assert (0 < INR (weightedMatches text k)
              / (INR (S (length ws)) * (1 + ln (1 + INR (S (length ws))))))
    by (apply Rmult_lt_0_compat; [exact Hpos|apply Rinv_0_lt_compat, HD]).
  lra.
Qed.

Lemma analyzeContextPatterns_entry text c k :
  In (c, k) categoryKeywords ->
  analyzeContextPatterns text !! c
  = Some (match length (preprocessText text) with
          | O => NaN
          | S _ => Fin (contextR text k)
          end).
Proof.
  intros Hin.
  rewrite (analyzeContextPatterns_lookup text c k Hin).
  rewrite (scanKeywords_counts text k (others_categoryKeywords c k Hin)).
  cbn [fst snd]. fold (accumulatedWeight text k). fold (matchCount text k).
  unfold contextR.
  destruct (length (preprocessText text)) as [|n] eqn:Hn.
  - apply length_zero_iff_nil in Hn.
    rewrite (matchCount_empty_text text c k Hin Hn), finalScore_empty. reflexivity.
  - rewrite finalScore_nonempty. reflexivity.
Qed.

(** X8: [analyzeContextPatterns] has an entry for each of the 7 categories
    and for nothing else.  On a text without preprocessed word (empty,
    blank, punctuation or single letters only) every entry is NaN, the
    density being 0/0; on any other text every entry is a number that is
    not negative, and it is 0 exactly when no term of the category occurs
    in the text. *)
Theorem X8_analyzeContextPatterns_entries (text : string) :
  (forall c, analyzeContextPatterns text !! c = None
             <-> ~ In c (Object_keys categoryKeywords))
  /\ match preprocessText text with
     | [] =>
         Forall (fun ck => analyzeContextPatterns text !! fst ck = Some NaN)
           categoryKeywords
     | _ :: _ =>
         Forall
           (fun ck =>
              exists x,
                analyzeContextPatterns text !! fst ck = Some (Fin x)
                /\ 0 <= x
                /\ (x = 0 <-> hits text (allTerms (snd ck)) = 0%nat))
           categoryKeywords
     end.
Proof.
  split.
  - intros c. rewrite analyzeContextPatterns_lookup_any, <- Object_keys_rev,
      <- getProperty_None.
    destruct (getProperty (rev categoryKeywords) c); split; congruence.
  - destruct (preprocessText text) as [|w ws] eqn:Hwords;
      rewrite List.Forall_forall; intros [c k] Hin; cbn [fst snd];
      rewrite (analyzeContextPatterns_entry text c k Hin), Hwords.
    + reflexivity.
    + cbn [length]. exists (contextR text k). split; [reflexivity|].
      split; [apply contextR_nonneg|].
      rewrite <- matchCount_hits. apply contextR_zero_iff.
      rewrite Hwords. discriminate.
Qed.

(** ** Texts with and without signal *)

Lemma maxScoreR_zero_noSignal text : maxScoreR text = 0 -> noSignal text = true.
Proof.
  intros Hz. unfold noSignal. apply forallb_forall. intros [c k] Hin. cbn [snd].
  pose proof (combinedR_nonneg text c k Hin) as H0.
  pose proof (combinedR_le_max text c k Hin) as Hle.
  pose proof (semanticR_nonneg text c k Hin) as Hs.
  pose proof (contextR_nonneg text k) as Hc.
  unfold combinedR in *.
  assert (Hsem : semanticR text k = 0) by lra.
  assert (Hctx : contextR text k = 0) by lra.
  apply andb_true_intro. split.
  - apply Nat.eqb_eq.
    destruct (preprocessText text) as [|w ws] eqn:Hwords.
    + apply (matchCount_empty_text text c k Hin Hwords).
    + apply contextR_zero_iff; [rewrite Hwords; discriminate|exact Hctx].
  - apply forallb_forall. intros w Hw. apply Nat.eqb_eq.
    apply (semanticR_zero_iff text c k Hin) in Hsem.
    rewrite List.Forall_forall in Hsem. specialize (Hsem w Hw).
    destruct (freq w (preprocessText text)) eqn:Hf; [reflexivity|].
    exfalso. apply Hsem, freq_In. lia.
Qed.

Lemma signal_classifyNews text :
  0 < maxScoreR text ->
  exists r,
    classifyNews text = Ok r
    /\ top_confidence r = Fin 100
    /\ Forall (fun p => isPercentage (confidence p)) (predictions r).
Proof.
  intros Hpos.
  destruct (classifyNews_result text) as (top & rest & Hr & Hsorted & Hperm).
  destruct (top_confidence_100 text top rest Hpos Hsorted Hperm)
    as (c & k & _ & _ & Htop).
  eexists. split; [exact Hr|]. cbn [top_confidence predictions].
  split; [rewrite Htop; reflexivity|].
  rewrite List.Forall_forall. intros p Hp.
  apply (Permutation_in _ Hperm) in Hp.
  destruct (In_normalized_positive text p Hpos Hp) as (c' & k' & Hin & ->).
  exists (confidenceR text k'). split; [reflexivity|].
  apply (confidenceR_bounds text c' k' Hin Hpos).
Qed.

(** X9: every text falls in one of two cases.  Either no term of any
    category occurs in it and none of its words is a keyword word: then the
    result is Technology with confidence NaN and seven NaN predictions in
    declaration order.  Or the reported confidence is exactly 100 and
    every prediction's confidence is a number of [0, 100]. *)
Theorem X9_classifyNews_dichotomy (text : string) :
  if noSignal text
  then classifyNews text = Ok undefinedResult
  else exists r,
         classifyNews text = Ok r
         /\ top_confidence r = Fin 100
         /\ Forall (fun p => isPercentage (confidence p)) (predictions r).
Proof.
  destruct (noSignal text) eqn:Hsig.
  - apply noSignal_classifyNews, Hsig.
  - apply signal_classifyNews.
    pose proof (maxScoreR_nonneg text) as Hge.
    destruct (Req_dec (maxScoreR text) 0) as [Hz|Hnz]; [|lra].
    apply maxScoreR_zero_noSignal in Hz. congruence.
Qed.

(** ** The winner *)

Lemma In_scored text c s :
  In (c, s) (map (scored text) categoryKeywords) ->
  exists k, In (c, k) categoryKeywords /\ s = Fin (combinedR text k).
Proof.
  intros Hin. apply in_map_iff in Hin as ([c' k] & Heq & Hin).
  unfold scored in Heq. cbn [fst snd] in Heq.
  assert (c' = c) by congruence. assert (Fin (combinedR text k) = s) by congruence.
  subst. exists k. split; [exact Hin|reflexivity].
Qed.

Lemma declIndex_Technology_least c : (declIndex "Technology" <= declIndex c)%nat.
Proof. change (declIndex "Technology") with 0%nat. lia. Qed.

(** X10: the reported category has the maximal combined score, and among
    the categories of maximal score it is the first declared. *)
Theorem X10_winner_has_maximal_score (text : string) :
  exists scores r s,
    combinedScores text = Ok scores
    /\ classifyNews text = Ok r
    /\ In (top_category r, s) scores
    /\ Math_max (map snd scores) = s
    /\ forall c, In (c, s) scores ->
         (declIndex (top_category r) <= declIndex c)%nat.
Proof.
  exists (map (scored text) categoryKeywords).
  pose proof (maxScoreR_nonneg text) as Hge.
  destruct (Req_dec (maxScoreR text) 0) as [Hz|Hnz].
  - exists undefinedResult, (Fin 0).
    split; [apply combinedScores_value|].
    split; [apply noSignal_classifyNews, maxScoreR_zero_noSignal, Hz|].
    split; [|split].
    + apply in_map_iff. eexists ("Technology", _). split; [|left; reflexivity].
      unfold scored. cbn [fst snd]. f_equal. f_equal.
      pose proof (combinedR_nonneg text "Technology" _ ltac:(left; reflexivity)).
      pose proof (combinedR_le_max text "Technology" _ ltac:(left; reflexivity)).
      lra.
    + rewrite maxScore_value, Hz. reflexivity.
    + intros c _. apply declIndex_Technology_least.
  - assert (Hpos : 0 < maxScoreR text) by lra.
    destruct (classifyNews_result text) as (top & rest & Hr & Hsorted & Hperm).
    destruct (top_confidence_100 text top rest Hpos Hsorted Hperm)
      as (c & k & Hin & Hmax & ->).
    eexists _, (Fin (maxScoreR text)).
    split; [apply combinedScores_value|]. split; [exact Hr|].
    cbn [top_category]. split; [|split].
    + apply in_map_iff. exists (c, k). split; [|exact Hin].
      unfold scored. cbn [fst snd]. rewrite Hmax. reflexivity.
    + apply maxScore_value.
    + intros c' Hc'. apply In_scored in Hc' as (k' & Hin' & Heq).
      assert (Hmax' : combinedR text k' = maxScoreR text) by congruence.
      set (p' := {| category := c'; confidence := Fin (confidenceR text k') |}).
      assert (Hp' : In p' (normalized text)).
      { rewrite (normalized_positive text Hpos). apply in_map_iff.
        exists (c', k'). split; [reflexivity|exact Hin']. }
      apply (Permutation_in _ (Permutation_sym Hperm)) in Hp'.
      destruct Hp' as [Heq'|Hrest].
      * unfold p' in Heq'. injection Heq' as Hc _. rewrite Hc. apply Nat.le_refl.
      * inversion Hsorted as [|? ? _ Hall]; subst.
        rewrite List.Forall_forall in Hall. specialize (Hall p' Hrest).
        unfold precedes, rank, p' in Hall. cbn [confidence rankOf category] in Hall.
        rewrite (confidenceR_max text k' Hpos Hmax') in Hall.
        destruct Hall as [Hlt|[_ Hidx]]; [lra|apply Nat.lt_le_incl, Hidx].
Qed.

(** X11: a sufficient condition for winning.  When the text has a word,
    and every category other than [c] has no keyword word among the words
    of the text and a smaller [score * (textLength + matches)] than [c],
    the classifier reports [c] with confidence 100. *)
Theorem X11_dominant_category_wins (text c : string) :
  dominant text c = true ->
  exists r,
    classifyNews text = Ok r
    /\ top_category r = c
    /\ top_confidence r = Fin 100.
Proof.
  intros H. destruct (dominant_classifyNews text c H) as (rest & Hr & _).
  eexists. split; [exact Hr|]. split; reflexivity.
Qed.

(** X11 applied to the laboratory scenario and the category Science. *)
Lemma X11_dominant_category_wins_witness :
  dominant
    "Scientists at NASA announced a breakthrough discovery using a new laboratory experiment"
    "Science" = true
  /\ exists r,
       classifyNews
         "Scientists at NASA announced a breakthrough discovery using a new laboratory experiment"
       = Ok r
       /\ top_category r = "Science"
       /\ top_confidence r = Fin 100.
Proof.
  assert (H : dominant
                "Scientists at NASA announced a breakthrough discovery using a new laboratory experiment"
                "Science" = true) by (vm_compute; reflexivity).
  split; [exact H|].
  exact (X11_dominant_category_wins _ _ H).
Defined.

(** * Properties of the classification handler *)

Lemma blank_pieces s cur insep :
  allChars isSpaceChar s = true -> cur = EmptyString ->
  longWords (splitWs_go s cur insep) = [].
Proof.
  intros Hs Hcur.
  pose proof (splitWs_go_chars (fun _ => false) s cur insep) as Hall.
  rewrite List.Forall_forall in Hall.
  destruct (longWords (splitWs_go s cur insep)) as [|w l] eqn:Hl; [reflexivity|].
  exfalso.
  assert (Hw : In w (longWords (splitWs_go s cur insep))) by (rewrite Hl; left; reflexivity).
  apply filter_In in Hw as [Hw Hlen]. apply Nat.ltb_lt in Hlen.
  assert (Hempty : allChars (fun _ => false) w = true).
  { apply Hall; [| subst cur; reflexivity | exact Hw].
    clear -Hs. induction s as [|c s IH]; [reflexivity|].
    cbn [allChars] in *. apply andb_prop in Hs as [Hc Hs].
    rewrite Hc, (IH Hs). reflexivity. }
  destruct w; [simpl in Hlen; lia|discriminate].
Qed.

Lemma trimEnd_blank s : trimEnd s = EmptyString -> allChars isSpaceChar s = true.
Proof.
  induction s as [|c s IH]; [reflexivity|]. cbn [trimEnd allChars].
  destruct (trimEnd s) as [|c' t]; [|discriminate].
  destruct (isSpaceChar c); [|discriminate]. intros _. apply IH. reflexivity.
Qed.

Lemma trimStart_blank s :
  allChars isSpaceChar (trimStart s) = true -> allChars isSpaceChar s = true.
Proof.
  induction s as [|c s IH]; [reflexivity|]. cbn [trimStart].
  destruct (isSpaceChar c) eqn:Hc.
  - intros H. cbn [allChars]. rewrite Hc. apply IH, H.
  - cbn [allChars]. rewrite Hc. discriminate.
Qed.

Lemma space_stays c : isSpaceChar c = true ->
  (if isWordChar (lowerChar c) || isSpaceChar (lowerChar c) then lowerChar c else " "%char)
  = c.
Proof. destruct c as [[] [] [] [] [] [] [] []]; vm_compute; congruence. Qed.

Lemma blank_replaced s :
  allChars isSpaceChar s = true -> replaceNonWord (toLowerCase s) = s.
Proof.
  induction s as [|c s IH]; [reflexivity|]. cbn [allChars].
  intros H. apply andb_prop in H as [Hc Hs].
  cbn [toLowerCase replaceNonWord]. rewrite (space_stays c Hc), (IH Hs). reflexivity.
Qed.

Lemma trim_blank_no_word text : trim text = EmptyString -> preprocessText text = [].
Proof.
  unfold trim. intros H. apply trimEnd_blank, trimStart_blank in H.
  unfold preprocessText. fold longWords. rewrite (blank_replaced text H).
  apply blank_pieces; [exact H|reflexivity].
Qed.

Lemma no_word_noSignal text : preprocessText text = [] -> noSignal text = true.
Proof.
  intros Hnil. unfold noSignal. apply forallb_forall. intros [c k] Hin. cbn [snd].
  rewrite (matchCount_empty_text text c k Hin Hnil), Hnil. cbn [Nat.eqb andb].
  apply forallb_forall. intros w _. reflexivity.
Qed.

(** X12: the handler either leaves the state untouched, when the text is
    blank after trimming or a classification is already running, or
    stores the result of [classifyNews], clears the error and resets the
    running flag; the "Classification failed" branch is never taken. *)
Theorem X12_classifyNewsText_outcome (message : exn -> string) (st : HomeState) :
  if negb (truthyString (trim (classificationText st))) || isClassifying st
  then classifyNewsText message st = st
  else exists r,
         classifyNews (classificationText st) = Ok r
         /\ classifyNewsText message st
            = {| classificationText := classificationText st;
                 classificationResult := Some r;
                 isClassifying := false;
                 error := None |}.
Proof.
  unfold classifyNewsText.
  destruct (negb (truthyString (trim (classificationText st))) || isClassifying st);
    [reflexivity|].
  cbv zeta. cbn [classificationText classificationResult isClassifying error].
  destruct (classifyNews_result (classificationText st)) as (top & rest & Hr & _).
  eexists. split; [exact Hr|]. rewrite Hr. reflexivity.
Qed.

(** X13: a text that is not blank after trimming and still has no
    preprocessed word (punctuation, single letters) passes the guard of
    the handler, which then stores the result whose confidences are all
    NaN. *)
Theorem X13_guard_admits_wordless_text (message : exn -> string) (st : HomeState) :
  isClassifying st = false ->
  truthyString (trim (classificationText st)) = true ->
  preprocessText (classificationText st) = [] ->
  classifyNewsText message st
  = {| classificationText := classificationText st;
       classificationResult := Some undefinedResult;
       isClassifying := false;
       error := None |}.
Proof.
  intros Hrun Htrim Hwords. unfold classifyNewsText. rewrite Hrun, Htrim.
  cbn [negb orb]. cbv zeta.
  cbn [classificationText classificationResult isClassifying error].
  rewrite (noSignal_classifyNews _ (no_word_noSignal _ Hwords)). reflexivity.
Qed.

(** X13 applied to the text "a ?" entered on a fresh page. *)
Lemma X13_guard_admits_wordless_text_witness :
  classifyNewsText (fun _ => EmptyString)
    {| classificationText := "a ?"; classificationResult := None;
       isClassifying := false; error := None |}
  = {| classificationText := "a ?";
       classificationResult := Some undefinedResult;
       isClassifying := false;
       error := None |}.
Proof.
  apply (X13_guard_admits_wordless_text (fun _ => EmptyString)
           {| classificationText := "a ?"; classificationResult := None;
              isClassifying := false; error := None |});
    reflexivity.
Defined.

(** X14: a text the guard of the handler rejects as blank has no
    preprocessed word, and [classifyNews] would answer it with the result
    whose confidences are all NaN: the guard withholds no text the
    classifier could score. *)
Theorem X14_blank_text_has_no_word (text : string) :
  truthyString (trim text) = false ->
  preprocessText text = [] /\ classifyNews text = Ok undefinedResult.
Proof.
  intros Hblank. destruct (trim text) eqn:Htrim; [|discriminate Hblank].
  pose proof (trim_blank_no_word text Htrim) as Hwords.
  split; [exact Hwords|]. apply noSignal_classifyNews, no_word_noSignal, Hwords.
Qed.

(** X14 applied to a text of a space, a tabulation and a line feed. *)
Lemma X14_blank_text_has_no_word_witness :
  preprocessText (String " " (String "009" (String "010" EmptyString))) = []
  /\ classifyNews (String " " (String "009" (String "010" EmptyString)))
     = Ok undefinedResult.
Proof.
  apply (X14_blank_text_has_no_word
           (String " " (String "009" (String "010" EmptyString)))).
  reflexivity.
Defined.

(** * Properties of the news API client *)

Section NewsApiFacts.

Variable axios_get : nat -> string -> AxiosResult.
Variable encodeURIComponent : string -> string.
Variable NEWS_API_KEY : string.
Variable message : exn -> string.

Abbreviation fetchWithProxy := (fetchWithProxy axios_get encodeURIComponent).
Abbreviation attempt := (attempt axios_get encodeURIComponent).
Abbreviation retryLoop := (retryLoop axios_get encodeURIComponent).
Abbreviation proxyLoop := (proxyLoop axios_get encodeURIComponent).
Abbreviation fetchWithRetryAndFallback :=
  (fetchWithRetryAndFallback axios_get encodeURIComponent).
Abbreviation fetchNewsArticles :=
  (fetchNewsArticles axios_get encodeURIComponent NEWS_API_KEY message).

Lemma string_or_truthy o d : truthyString d = true -> truthyString (string_or o d) = true.
Proof.
  intros Hd. unfold string_or. destruct o as [s|]; [|exact Hd].
  destruct (truthyString s) eqn:Hs; assumption.
Qed.

(** What [fetchWithProxy] returns has passed the three checks, and what
    it throws is an axios error or an [Error] with a message. *)
Lemma fetchWithProxy_cases n url proxy :
  match fetchWithProxy n url proxy with
  | inl data =>
      axios_get n (String.append proxy (encodeURIComponent url)) = Response (Some data)
      /\ data_status data <> Some "error"
      /\ data_articles data <> None
  | inr error =>
      reportable error
      /\ match error with
         | AxiosError e =>
             axios_get n (String.append proxy (encodeURIComponent url)) = Failure e
         | _ => True
         end
  end.
Proof.
  unfold fetchWithProxy. cbv zeta.
  destruct (axios_get n (String.append proxy (encodeURIComponent url)))
    as [[data|]|e]; [|split; [reflexivity|exact I]|split; [exact I|reflexivity]].
  destruct (data_status data) as [s|] eqn:Hs.
  - destruct (String.eqb_spec s "error") as [->|Hne].
    + split; [|exact I]. apply string_or_truthy. reflexivity.
    + destruct (data_articles data) eqn:Ha.
      * split; [reflexivity|]. split; [congruence|rewrite Ha; discriminate].
      * split; [reflexivity|exact I].
  - destruct (data_articles data) eqn:Ha.
    + split; [reflexivity|]. split; [congruence|rewrite Ha; discriminate].
    + split; [reflexivity|exact I].
Qed.

(** The four ways a pass of the inner loop ends. *)
Lemma attempt_cases url proxy i st :
  let finalUrl := String.append proxy (encodeURIComponent url) in
  (exists data,
      fetchWithProxy (requests st) url proxy = inl data
      /\ attempt url proxy i st
         = Returned data
             {| requests := S (requests st);
                events := (events st ++ [Requested finalUrl])%list;
                lastError := lastError st |})
  \/ (exists error fatal,
        fetchWithProxy (requests st) url proxy = inr error
        /\ fatalError fatal
        /\ attempt url proxy i st
           = Raised fatal
               {| requests := S (requests st);
                  events := ((events st ++ [Requested finalUrl]) ++ [])%list;
                  lastError := error |})
  \/ (exists error ms,
        fetchWithProxy (requests st) url proxy = inr error
        /\ (ms = 1000 * (i + 1) \/ ms = 2000 * (i + 1))%nat
        /\ attempt url proxy i st
           = Next
               {| requests := S (requests st);
                  events := ((events st ++ [Requested finalUrl]) ++ [Delayed ms])%list;
                  lastError := error |}).
Proof.
  cbv zeta. unfold attempt. cbv zeta.
  destruct (fetchWithProxy (requests st) url proxy) as [data|error].
  - left. exists data. split; reflexivity.
  - right. destruct error as [e|m|e|].
    + destruct (statusIs e 429).
      * right. eexists _, _. split; [reflexivity|]. split; [right; reflexivity|reflexivity].
      * destruct (statusIs e 401).
        -- left. eexists _, _. split; [reflexivity|]. split; [left; reflexivity|reflexivity].
        -- destruct (statusIs e 426).
           ++ left. eexists _, _. split; [reflexivity|].
              split; [right; reflexivity|reflexivity].
           ++ right. eexists _, _. split; [reflexivity|].
              split; [left; reflexivity|reflexivity].
    + right. eexists _, _. split; [reflexivity|]. split; [left; reflexivity|reflexivity].
    + right. eexists _, _. split; [reflexivity|]. split; [left; reflexivity|reflexivity].
    + right. eexists _, _. split; [reflexivity|]. split; [left; reflexivity|reflexivity].
Qed.

Abbreviation runInvariant := (runInvariant encodeURIComponent).

Lemma countRequests_app evs1 evs2 :
  countRequests (evs1 ++ evs2) = (countRequests evs1 + countRequests evs2)%nat.
Proof. unfold countRequests. rewrite List.filter_app, length_app. reflexivity. Qed.

Lemma totalDelay_app evs1 evs2 :
  totalDelay (evs1 ++ evs2) = (totalDelay evs1 + totalDelay evs2)%nat.
Proof. unfold totalDelay. rewrite map_app, list_sum_app. reflexivity. Qed.

Lemma totalDelay_pass evs u ms :
  totalDelay ((evs ++ [Requested u]) ++ [Delayed ms]) = (totalDelay evs + ms)%nat.
Proof. rewrite !totalDelay_app. cbn. lia. Qed.

Lemma countRequests_pass evs u ms :
  countRequests ((evs ++ [Requested u]) ++ [Delayed ms]) = S (countRequests evs).
Proof. rewrite !countRequests_app. cbn. lia. Qed.

Lemma attempt_invariant url retries proxy i st :
  In proxy CORS_PROXIES -> (i < retries)%nat ->
  runInvariant url retries st ->
  runInvariant url retries (stateOf (attempt url proxy i st))
  /\ requests (stateOf (attempt url proxy i st)) = S (requests st)
  /\ match attempt url proxy i st with
     | Raised error _ => fatalError error
     | _ => True
     end.
Proof.
  intros Hproxy Hi (Hcount & Hevents & Hlast).
  pose proof (fetchWithProxy_cases (requests st) url proxy) as Hfetch.
  assert (Hreq : expectedEvent encodeURIComponent url retries
                   (Requested (String.append proxy (encodeURIComponent url))))
    by (exists proxy; split; [exact Hproxy|reflexivity]).
  destruct (attempt_cases url proxy i st)
    as [(data & Hf & ->) | [(error & fatal & Hf & Hfatal & ->) | (error & ms & Hf & Hms & ->)]];
    rewrite Hf in Hfetch; unfold runInvariant; cbn [stateOf requests events lastError].
  - split; [|split; [reflexivity|exact I]]. split; [|split].
    + rewrite countRequests_app, <- Hcount. cbn. lia.
    + apply Forall_app. split; [exact Hevents|]. repeat constructor. exact Hreq.
    + exact Hlast.
  - split; [|split; [reflexivity|exact Hfatal]]. split; [|split].
    + rewrite !countRequests_app, <- Hcount. cbn. lia.
    + rewrite app_nil_r. apply Forall_app. split; [exact Hevents|].
      repeat constructor. exact Hreq.
    + right. apply Hfetch.
  - split; [|split; [reflexivity|exact I]]. split; [|split].
    + rewrite !countRequests_app, <- Hcount. cbn. lia.
    + apply Forall_app. split; [apply Forall_app; split; [exact Hevents|]|].
      * repeat constructor. exact Hreq.
      * repeat constructor. cbn [expectedEvent]. destruct Hms; subst ms; nia.
    + right. apply Hfetch.
Qed.

Lemma retryLoop_invariant url retries proxy i left st :
  In proxy CORS_PROXIES -> (i + left <= retries)%nat ->
  runInvariant url retries st ->
  runInvariant url retries (stateOf (retryLoop url proxy i left st))
  /\ (requests (stateOf (retryLoop url proxy i left st)) <= requests st + left)%nat
  /\ match retryLoop url proxy i left st with
     | Raised error _ => fatalError error
     | Next st' => requests st' = (requests st + left)%nat
     | Returned _ _ => True
     end.
Proof.
  intros Hproxy. revert i st. induction left as [|left IH]; intros i st Hle Hinv.
  - cbn [retryLoop stateOf]. split; [exact Hinv|]. split; lia.
  - cbn [retryLoop].
    destruct (attempt_invariant url retries proxy i st Hproxy ltac:(lia) Hinv)
      as (Hinv' & Hreq & Hfatal).
    destruct (attempt url proxy i st) as [data st'|error st'|st'];
      cbn [stateOf] in *.
    + split; [exact Hinv'|]. split; [lia|exact I].
    + split; [exact Hinv'|]. split; [lia|exact Hfatal].
    + destruct (IH (S i) st' ltac:(lia) Hinv') as (Hinv'' & Hle' & Hres).
      split; [exact Hinv''|]. split; [lia|].
      destruct (retryLoop url proxy (S i) left st'); try exact Hres. lia.
Qed.

Lemma proxyLoop_invariant url retries proxies st :
  (forall proxy, In proxy proxies -> In proxy CORS_PROXIES) ->
  runInvariant url retries st ->
  runInvariant url retries (finalState (proxyLoop url retries proxies st))
  /\ (requests (finalState (proxyLoop url retries proxies st))
      <= requests st + length proxies * retries)%nat
  /\ match proxyLoop url retries proxies st with
     | Rejected error st' =>
         fatalError error
         \/ (requests st' = (requests st + length proxies * retries)%nat
             /\ error = lastError st')
     | Resolved _ _ => True
     end.
Proof.
  revert st. induction proxies as [|proxy proxies IH]; intros st Hsub Hinv.
  - cbn [proxyLoop finalState length]. split; [exact Hinv|]. split; [lia|].
    right. split; [lia|reflexivity].
  - cbn [proxyLoop length].
    destruct (retryLoop_invariant url retries proxy 0 retries st
                (Hsub proxy ltac:(left; reflexivity)) ltac:(lia) Hinv)
      as (Hinv' & Hle & Hres).
    destruct (retryLoop url proxy 0 retries st) as [data st'|error st'|st'];
      cbn [stateOf finalState] in *.
    + split; [exact Hinv'|]. split; [lia|exact I].
    + split; [exact Hinv'|]. split; [lia|]. left. exact Hres.
    + destruct (IH st' ltac:(intros p Hp; apply Hsub; right; exact Hp) Hinv')
        as (Hinv'' & Hle' & Hres').
      split; [exact Hinv''|]. split; [lia|].
      destruct (proxyLoop url retries proxies st'); [exact I|].
      destruct Hres' as [Hf|[Hn He]]; [left; exact Hf|right]. split; [lia|exact He].
Qed.

Lemma initial_invariant url retries :
  runInvariant url retries
    {| requests := 0; events := []; lastError := ThrownUndefined |}.
Proof. split; [reflexivity|]. split; [constructor|left; reflexivity]. Qed.

(** X15: whatever the network answers, a run of
    [fetchWithRetryAndFallback] makes at most [3 * retries] requests, each
    to one of the three proxies with the encoded address, and each of its
    waits lasts at most [2000 * retries] milliseconds. *)
Theorem X15_fetchWithRetryAndFallback_bounded (url : string) (retries : nat) :
  (countRequests (events (finalState (fetchWithRetryAndFallback url retries)))
   <= 3 * retries)%nat
  /\ Forall (expectedEvent encodeURIComponent url retries)
       (events (finalState (fetchWithRetryAndFallback url retries))).
Proof.
  unfold fetchWithRetryAndFallback.
  destruct (proxyLoop_invariant url retries CORS_PROXIES _
              (fun p Hp => Hp) (initial_invariant url retries))
    as ((Hcount & Hevents & _) & Hle & _).
  split; [|exact Hevents]. rewrite <- Hcount.
  change (length CORS_PROXIES) with 3%nat in Hle. cbn [requests] in Hle. lia.
Qed.

(** X16: a run gives up before its [3 * retries] requests only by throwing
    one of the two errors raised for the statuses 401 and 426; any other
    rejection comes after all the requests and throws the last error
    caught. *)
Theorem X16_fetchWithRetryAndFallback_early_exit (url : string) (retries : nat) :
  match fetchWithRetryAndFallback url retries with
  | Rejected error st =>
      fatalError error
      \/ (countRequests (events st) = (3 * retries)%nat /\ error = lastError st)
  | Resolved _ _ => True
  end.
Proof.
  unfold fetchWithRetryAndFallback.
  destruct (proxyLoop_invariant url retries CORS_PROXIES _
              (fun p Hp => Hp) (initial_invariant url retries))
    as ((Hcount & _) & _ & Hres).
  destruct (proxyLoop url retries CORS_PROXIES _) as [data st|error st]; [exact I|].
  change (length CORS_PROXIES) with 3%nat in Hres. cbn [finalState requests] in *.
  destruct Hres as [Hf|[Hn He]]; [left; exact Hf|right].
  split; [rewrite <- Hcount; lia|exact He].
Qed.

Lemma retryLoop_returned url proxy i left st data st' :
  retryLoop url proxy i left st = Returned data st' ->
  fetchWithProxy (requests st' - 1) url proxy = inl data
  /\ (0 < requests st')%nat
  /\ last (events st') = Some (Requested (String.append proxy (encodeURIComponent url))).
Proof.
  revert i st. induction left as [|left IH]; intros i st Hret; [discriminate|].
  cbn [retryLoop] in Hret.
  destruct (attempt_cases url proxy i st)
    as [(d & Hf & Ha) | [(error & fatal & Hf & Hfatal & Ha) | (error & ms & Hf & Hms & Ha)]];
    rewrite Ha in Hret.
  - injection Hret as <- <-. cbn [requests events].
    rewrite Nat.sub_1_r. cbn [Nat.pred]. split; [exact Hf|]. split; [lia|apply last_snoc].
  - discriminate.
  - apply IH in Hret. exact Hret.
Qed.

Lemma proxyLoop_resolved url retries proxies st data st' :
  proxyLoop url retries proxies st = Resolved data st' ->
  exists proxy,
    In proxy proxies
    /\ fetchWithProxy (requests st' - 1) url proxy = inl data
    /\ (0 < requests st')%nat
    /\ last (events st') = Some (Requested (String.append proxy (encodeURIComponent url))).
Proof.
  revert st. induction proxies as [|proxy proxies IH]; intros st Hres; [discriminate|].
  cbn [proxyLoop] in Hres.
  destruct (retryLoop url proxy 0 retries st) as [d st1|error st1|st1] eqn:Hloop.
  - injection Hres as <- <-. exists proxy. split; [left; reflexivity|].
    eapply retryLoop_returned, Hloop.
  - discriminate.
  - destruct (IH st1 Hres) as (p & Hp & H). exists p. split; [right; exact Hp|exact H].
Qed.

Lemma resolved_checked url retries :
  match fetchWithRetryAndFallback url retries with
  | Resolved data st =>
      data_status data <> Some "error"
      /\ data_articles data <> None
      /\ exists proxy,
           In proxy CORS_PROXIES
           /\ last (events st)
              = Some (Requested (String.append proxy (encodeURIComponent url)))
           /\ axios_get (countRequests (events st) - 1)
                (String.append proxy (encodeURIComponent url))
              = Response (Some data)
  | Rejected _ _ => True
  end.
Proof.
  pose proof (proxyLoop_invariant url retries CORS_PROXIES _
                (fun p Hp => Hp) (initial_invariant url retries)) as ((Hcount & _) & _).
  unfold fetchWithRetryAndFallback in *.
  destruct (proxyLoop url retries CORS_PROXIES _) as [data st|error st] eqn:Hrun;
    [|exact I].
  cbn [finalState] in Hcount.
  destruct (proxyLoop_resolved _ _ _ _ _ _ Hrun) as (proxy & Hp & Hf & _ & Hlast).
  pose proof (fetchWithProxy_cases (requests st - 1) url proxy) as Hcases.
  rewrite Hf in Hcases. destruct Hcases as (Hget & Hstatus & Harticles).
  split; [exact Hstatus|]. split; [exact Harticles|].
  exists proxy. split; [exact Hp|]. split; [exact Hlast|].
  rewrite <- Hcount. exact Hget.
Qed.

(** X17: the response a run returns is the answer of the network to the
    last request of the run; its [status] is not ['error'] and its
    [articles] is an array. *)
Theorem X17_fetchWithRetryAndFallback_resolved (url : string) (retries : nat) :
  match fetchWithRetryAndFallback url retries with
  | Resolved data st =>
      data_status data <> Some "error"
      /\ data_articles data <> None
      /\ exists proxy,
           In proxy CORS_PROXIES
           /\ last (events st)
              = Some (Requested (String.append proxy (encodeURIComponent url)))
           /\ axios_get (countRequests (events st) - 1)
                (String.append proxy (encodeURIComponent url))
              = Response (Some data)
  | Rejected _ _ => True
  end.
Proof. apply resolved_checked. Qed.

(** ** Exhausted runs *)

Lemma passes_closed i left : (2 * passes i left = left * (2 * i + left + 1))%nat.
Proof. revert i. induction left as [|left IH]; intros i; cbn [passes]; [lia|]. specialize (IH (S i)). nia. Qed.

Section Exhausted.

(** Every answer of the network is a failure other than 401 and 426. *)
Hypothesis retryable :
  forall n finalUrl,
    exists e, axios_get n finalUrl = Failure e
              /\ statusIs e 401 = false /\ statusIs e 426 = false.

Lemma attempt_retryable url proxy i st :
  exists e ms,
    axios_get (requests st) (String.append proxy (encodeURIComponent url)) = Failure e
    /\ (ms = if statusIs e 429 then 2000 * (i + 1) else 1000 * (i + 1))%nat
    /\ attempt url proxy i st
       = Next {| requests := S (requests st);
                 events := ((events st
                             ++ [Requested (String.append proxy (encodeURIComponent url))])
                            ++ [Delayed ms])%list;
                 lastError := AxiosError e |}.
Proof.
  destruct (retryable (requests st) (String.append proxy (encodeURIComponent url)))
    as (e & He & H401 & H426).
  exists e. eexists. split; [exact He|]. split; [reflexivity|].
  unfold attempt, fetchWithProxy. cbv zeta. rewrite He, H401, H426.
  destruct (statusIs e 429); reflexivity.
Qed.

Lemma retryLoop_exhausted url proxy i left st :
  exists st',
    retryLoop url proxy i left st = Next st'
    /\ requests st' = (requests st + left)%nat
    /\ countRequests (events st') = (countRequests (events st) + left)%nat
    /\ (totalDelay (events st) + 1000 * passes i left <= totalDelay (events st')
        <= totalDelay (events st) + 2000 * passes i left)%nat
    /\ (left = 0%nat \/ exists e, lastError st' = AxiosError e
                                  /\ statusIs e 401 = false /\ statusIs e 426 = false).
Proof.
  revert i st. induction left as [|left IH]; intros i st.
  - exists st. cbn [retryLoop passes].
    split; [reflexivity|]. split; [lia|]. split; [lia|]. split; [lia|left; reflexivity].
  - destruct (attempt_retryable url proxy i st) as (e & ms & He & Hms & Ha).
    cbn [retryLoop]. rewrite Ha.
    destruct (IH (S i)
                {| requests := S (requests st);
                   events := ((events st
                               ++ [Requested (String.append proxy (encodeURIComponent url))])
                              ++ [Delayed ms])%list;
                   lastError := AxiosError e |})
      as (st' & Hloop & Hreq & Hcount & Hdelay & Hlast).
    exists st'. split; [exact Hloop|]. cbn [requests events lastError] in *.
    rewrite countRequests_pass in Hcount. rewrite totalDelay_pass in Hdelay.
    assert (Hrange : (1000 * (i + 1) <= ms <= 2000 * (i + 1))%nat)
      by (destruct (statusIs e 429); lia).
    split; [lia|]. split; [lia|]. split; [cbn [passes]; lia|].
    right. destruct Hlast as [->|Hlast]; [|exact Hlast].
    cbn [retryLoop] in Hloop. injection Hloop as <-. cbn [lastError].
    destruct (retryable (requests st) (String.append proxy (encodeURIComponent url)))
      as (e' & He' & H401 & H426).
    assert (e' = e) by congruence. subst e'. exists e. repeat split; assumption.
Qed.

Lemma proxyLoop_exhausted url retries proxies st :
  exists st',
    proxyLoop url retries proxies st = Rejected (lastError st') st'
    /\ countRequests (events st')
       = (countRequests (events st) + length proxies * retries)%nat
    /\ (totalDelay (events st) + length proxies * (1000 * passes 0 retries)
        <= totalDelay (events st')
        <= totalDelay (events st) + length proxies * (2000 * passes 0 retries))%nat
    /\ (lastError st' = lastError st
        \/ exists e, lastError st' = AxiosError e
                     /\ statusIs e 401 = false /\ statusIs e 426 = false).
Proof.
  revert st. induction proxies as [|proxy proxies IH]; intros st.
  - exists st. cbn [proxyLoop length].
    split; [reflexivity|]. split; [lia|]. split; [lia|left; reflexivity].
  - destruct (retryLoop_exhausted url proxy 0 retries st)
      as (st1 & Hloop & _ & Hcount & Hdelay & Hlast).
    destruct (IH st1) as (st' & Hrun & Hcount' & Hdelay' & Hlast').
    exists st'. cbn [proxyLoop length]. rewrite Hloop. split; [exact Hrun|].
    split; [lia|]. split; [lia|].
    destruct Hlast' as [Heq|Hax]; [|right; exact Hax].
    destruct Hlast as [->|Hax].
    + cbn [retryLoop] in Hloop. injection Hloop as <-. left. exact Heq.
    + right. rewrite Heq. exact Hax.
Qed.

(** X18: when the network only answers with failures other than 401 and
    426, a run makes exactly [3 * retries] requests, waits between
    [1500 * retries * (retries + 1)] and [3000 * retries * (retries + 1)]
    milliseconds in all (9 to 18 seconds for the default 2), and then
    throws [lastError]. *)
Theorem X18_fetchWithRetryAndFallback_exhausted (url : string) (retries : nat) :
  exists st,
    fetchWithRetryAndFallback url retries = Rejected (lastError st) st
    /\ countRequests (events st) = (3 * retries)%nat
    /\ (1500 * retries * (retries + 1) <= totalDelay (events st)
        <= 3000 * retries * (retries + 1))%nat.
Proof.
  unfold fetchWithRetryAndFallback.
  destruct (proxyLoop_exhausted url retries CORS_PROXIES
              {| requests := 0; events := []; lastError := ThrownUndefined |})
    as (st & Hrun & Hcount & Hdelay & _).
  exists st. split; [exact Hrun|].
  change (length CORS_PROXIES) with 3%nat in *. cbn [events] in *.
  change (countRequests []) with 0%nat in Hcount.
  change (totalDelay []) with 0%nat in Hdelay.
  pose proof (passes_closed 0 retries) as Hp.
  split; [lia|]. nia.
Qed.

End Exhausted.

(** ** Rate limiting *)

Section RateLimited.

(** Every answer of the network is the status 429. *)
Hypothesis limited :
  forall n finalUrl,
    exists e, axios_get n finalUrl = Failure e /\ statusIs e 429 = true.

Lemma limited_attempt url proxy i st :
  exists e,
    statusIs e 429 = true
    /\ attempt url proxy i st
       = Next {| requests := S (requests st);
                 events := ((events st
                             ++ [Requested (String.append proxy (encodeURIComponent url))])
                            ++ [Delayed (2000 * (i + 1))])%list;
                 lastError := AxiosError e |}.
Proof.
  destruct (limited (requests st) (String.append proxy (encodeURIComponent url)))
    as (e & He & H429).
  exists e. split; [exact H429|].
  unfold attempt, fetchWithProxy. cbv zeta. rewrite He, H429. reflexivity.
Qed.

Lemma limited_retryLoop url proxy st :
  exists e n,
    statusIs e 429 = true
    /\ retryLoop url proxy 0 2 st
       = Next {| requests := n;
                 events :=
                   (events st
                    ++ [Requested (String.append proxy (encodeURIComponent url));
                        Delayed 2000;
                        Requested (String.append proxy (encodeURIComponent url));
                        Delayed 4000])%list;
                 lastError := AxiosError e |}.
Proof.
  cbn [retryLoop].
  destruct (limited_attempt url proxy 0 st) as (e1 & _ & ->).
  destruct (limited_attempt url proxy 1
              {| requests := S (requests st);
                 events := ((events st
                             ++ [Requested (String.append proxy (encodeURIComponent url))])
                            ++ [Delayed (2000 * (0 + 1))])%list;
                 lastError := AxiosError e1 |}) as (e2 & H2 & ->).
  exists e2. eexists. split; [exact H2|]. cbn [requests events].
  rewrite <- !app_assoc. reflexivity.
Qed.

(** X19: when every request is answered with the status 429,
    [fetchNewsArticles] asks each of the three proxies twice, waits 2 then
    4 seconds after the answers of each proxy, 18 seconds in all, and
    throws the error "Rate limit exceeded. Please try again later.". *)
Theorem X19_fetchNewsArticles_rate_limited (category : option string) :
  fetchNewsArticles category
  = (inr "Rate limit exceeded. Please try again later.",
     flat_map
       (fun proxy =>
          [Requested (String.append proxy
                        (encodeURIComponent (endpoint NEWS_API_KEY category)));
           Delayed 2000;
           Requested (String.append proxy
                        (encodeURIComponent (endpoint NEWS_API_KEY category)));
           Delayed 4000])
       CORS_PROXIES).
Proof.
  unfold fetchNewsArticles, fetchWithRetryAndFallback, CORS_PROXIES.
  cbn [proxyLoop].
  destruct (limited_retryLoop (endpoint NEWS_API_KEY category)
              "https://api.allorigins.win/raw?url="
              {| requests := 0; events := []; lastError := ThrownUndefined |})
    as (e1 & n1 & _ & ->).
  match goal with
  | |- context [retryLoop ?u ?p 0 2 ?st] =>
      destruct (limited_retryLoop u p st) as (e2 & n2 & _ & ->)
  end.
  match goal with
  | |- context [retryLoop ?u ?p 0 2 ?st] =>
      destruct (limited_retryLoop u p st) as (e3 & n3 & H3 & ->)
  end.
  cbn [lastError events getErrorMessage]. rewrite H3.
  cbn [flat_map app]. reflexivity.
Qed.

End RateLimited.

(** ** What [fetchNewsArticles] hands over *)










End NewsApiFacts.

(** X18 applied to a network that answers 503 to every request, for the
    default of 2 passes per proxy. *)
Lemma X18_fetchWithRetryAndFallback_exhausted_witness :
  (forall n finalUrl,
     exists e, unavailable n finalUrl = Failure e
               /\ statusIs e 401 = false /\ statusIs e 426 = false)
  /\ exists st,
       fetchWithRetryAndFallback unavailable (fun component => component)
         "https://newsapi.org/v2/top-headlines" 2
       = Rejected (lastError st) st
       /\ countRequests (events st) = (3 * 2)%nat
       /\ (1500 * 2 * (2 + 1) <= totalDelay (events st) <= 3000 * 2 * (2 + 1))%nat.
Proof.
  assert (H : forall n finalUrl,
             exists e, unavailable n finalUrl = Failure e
                       /\ statusIs e 401 = false /\ statusIs e 426 = false).
  { intros n finalUrl. eexists. split; [reflexivity|]. split; reflexivity. }
  split; [exact H|].
  exact (X18_fetchWithRetryAndFallback_exhausted unavailable (fun component => component)
           H "https://newsapi.org/v2/top-headlines" 2).
Defined.

(** X19 applied to a network that answers 429 to every request. *)
Lemma X19_fetchNewsArticles_rate_limited_witness :
  (forall n finalUrl,
     exists e, rateLimiting n finalUrl = Failure e /\ statusIs e 429 = true)
  /\ fst (fetchNewsArticles rateLimiting (fun component => component) "key"
            (fun _ => EmptyString) (Some "Sports"))
     = inr "Rate limit exceeded. Please try again later.".
Proof.
  assert (H : forall n finalUrl,
             exists e, rateLimiting n finalUrl = Failure e /\ statusIs e 429 = true).
  { intros n finalUrl. eexists. split; reflexivity. }
  split; [exact H|].
  rewrite (X19_fetchNewsArticles_rate_limited rateLimiting (fun component => component)
             "key" (fun _ => EmptyString) H (Some "Sports")).
  reflexivity.
Defined.

(** * Properties of the recommendations *)

Section DashboardFacts.

Variable fetchArticles : nat -> option string -> list Article + string.
Variable history : list ArticleHistory.

Abbreviation notSeen := (notSeen history).
Abbreviation gather := (gather history).
Abbreviation forCategories := (forCategories fetchArticles history).
Abbreviation recommendationPass := (recommendationPass fetchArticles history).
Abbreviation recommendationLoop := (recommendationLoop fetchArticles history).
Abbreviation fetchRecommendations := (fetchRecommendations fetchArticles history).
Abbreviation gathered := (gathered fetchArticles history).

Lemma notSeen_unread recommended article :
  notSeen recommended article = true -> ~ In (title article) (map hist_title history).
Proof.
  unfold notSeen. intros H. apply andb_prop in H as [_ H].
  apply negb_true_iff in H. intros Hin. apply in_map_iff in Hin as (hist & Heq & Hin).
  assert (Hex : existsb (fun hist => String.eqb (hist_title hist) (title article)) history
                = true).
  { apply existsb_exists. exists hist. split; [exact Hin|]. apply String.eqb_eq, Heq. }
  congruence.
Qed.

Lemma gathered_weaken st n :
  gathered st -> (fetches st <= n)%nat ->
  gathered {| allRecommendations := allRecommendations st; fetches := n |}.
Proof.
  intros [Hlen Hall] Hle. split; [exact Hlen|]. cbn [allRecommendations fetches].
  rewrite List.Forall_forall in *. intros a Ha.
  destruct (Hall a Ha) as (Hunread & k & c & articles & Hk & Hfetch & Hin).
  split; [exact Hunread|]. exists k, c, articles. split; [lia|]. split; assumption.
Qed.

Lemma firstn_member {A : Type} (n : nat) (l : list A) (a : A) :
  In a (firstn n l) -> In a l.
Proof.
  intros H. rewrite <- (firstn_skipn n l). apply in_or_app. left. exact H.
Qed.

Lemma gather_gathered st category articles :
  gathered st ->
  fetchArticles (fetches st) category = inl articles ->
  gathered (gather st articles).
Proof.
  intros Hst Hfetch. pose proof Hst as [Hlen _].
  destruct (gathered_weaken st (S (fetches st)) Hst ltac:(lia)) as [_ Hall].
  cbn [allRecommendations fetches] in Hall.
  unfold gather. cbv zeta. split; cbn [allRecommendations fetches].
  - rewrite length_app, length_firstn. lia.
  - apply Forall_app. split; [exact Hall|].
    rewrite List.Forall_forall. intros a Ha.
    apply firstn_member in Ha. apply filter_In in Ha as [Ha Hseen].
    split; [eapply notSeen_unread, Hseen|].
    exists (fetches st), category, articles. split; [lia|]. split; assumption.
Qed.

Lemma forCategories_gathered categories st :
  gathered st ->
  gathered (fst (forCategories categories st))
  /\ (fetches st <= fetches (fst (forCategories categories st))
      <= fetches st + length categories)%nat.
Proof.
  revert st. induction categories as [|category categories IH]; intros st Hst.
  - cbn [forCategories fst length]. split; [exact Hst|lia].
  - cbn [forCategories length].
    destruct (3 <=? length (allRecommendations st))%nat; [cbn [fst]; split; [exact Hst|lia]|].
    destruct (fetchArticles (fetches st) (Some category)) as [articles|text] eqn:Hfetch.
    + destruct (IH (gather st articles) (gather_gathered st _ articles Hst Hfetch))
        as [Hg Hf].
      split; [exact Hg|]. cbn [gather fetches] in Hf. lia.
    + cbn [fst fetches]. split; [apply gathered_weaken; [exact Hst|lia]|lia].
Qed.

Lemma recommendationPass_gathered categories st :
  gathered st ->
  gathered (recommendationPass categories st)
  /\ (fetches (recommendationPass categories st)
      <= fetches st + (length categories + 1))%nat.
Proof.
  intros Hst. unfold recommendationPass.
  destruct (forCategories_gathered categories st Hst) as [Hg Hf].
  destruct (forCategories categories st) as [st1 threw]. cbn [fst] in *.
  destruct threw; [split; [exact Hg|lia]|].
  destruct (length (allRecommendations st1) <? 3)%nat; [|split; [exact Hg|lia]].
  destruct (fetchArticles (fetches st1) None) as [articles|text] eqn:Hfetch.
  - split; [eapply gather_gathered; eassumption|].
    cbn [gather fetches]. lia.
  - cbn [fetches]. split; [apply gathered_weaken; [exact Hg|lia]|lia].
Qed.

Lemma recommendationLoop_gathered categories left st :
  gathered st ->
  gathered (recommendationLoop categories left st)
  /\ (fetches (recommendationLoop categories left st)
      <= fetches st + left * (length categories + 1))%nat.
Proof.
  revert st. induction left as [|left IH]; intros st Hst.
  - cbn [recommendationLoop]. split; [exact Hst|lia].
  - cbn [recommendationLoop].
    destruct (length (allRecommendations st) <? 3)%nat; [|split; [exact Hst|lia]].
    destruct (recommendationPass_gathered categories st Hst) as [Hg Hf].
    destruct (IH _ Hg) as [Hg' Hf']. split; [exact Hg'|lia].
Qed.

(** X21: whatever the calls of [fetchNewsArticles] return or throw,
    [fetchRecommendations] returns at most 3 articles, none of which has a
    title of the history, each of which was returned by one of its calls;
    and it makes at most [3 * (categories.length + 1)] calls. *)
Theorem X21_fetchRecommendations_bounded (categories : list string) :
  (length (allRecommendations (fetchRecommendations categories)) <= 3)%nat
  /\ Forall
       (fun article =>
          ~ In (title article) (map hist_title history)
          /\ exists n category articles,
               (n < fetches (fetchRecommendations categories))%nat
               /\ fetchArticles n category = inl articles
               /\ In article articles)
       (allRecommendations (fetchRecommendations categories))
  /\ (fetches (fetchRecommendations categories) <= 3 * (length categories + 1))%nat.
Proof.
  unfold fetchRecommendations.
  destruct (recommendationLoop_gathered categories 3
              {| allRecommendations := []; fetches := 0 |})
    as [[Hlen Hall] Hf].
  - split; [cbn; lia|constructor].
  - split; [exact Hlen|]. split; [exact Hall|]. cbn [fetches] in Hf. lia.
Qed.

(** X22: when the first call, made for the first category, returns 3 or
    more articles whose titles are not in the history,
    [fetchRecommendations] returns the first 3 of them and makes no other
    call. *)
Theorem X22_fetchRecommendations_first_call
  (category : string) (categories : list string) (articles : list Article) :
  fetchArticles 0 (Some category) = inl articles ->
  (3 <= length (unread history articles))%nat ->
  fetchRecommendations (category :: categories)
  = {| allRecommendations := firstn 3 (unread history articles); fetches := 1 |}.
Proof.
  intros Hfetch Hlen.
  assert (Hgather : gather {| allRecommendations := []; fetches := 0 |} articles
                    = {| allRecommendations := firstn 3 (unread history articles);
                         fetches := 1 |}).
  { unfold gather. cbv zeta. cbn [allRecommendations fetches length app Nat.sub].
    reflexivity. }
  assert (Hfull : length (firstn 3 (unread history articles)) = 3%nat)
    by (rewrite length_firstn; lia).
  assert (Hfor : forall cs,
             forCategories cs
               {| allRecommendations := firstn 3 (unread history articles); fetches := 1 |}
             = ({| allRecommendations := firstn 3 (unread history articles); fetches := 1 |},
                false)).
  { intros [|c cs]; [reflexivity|]. cbn [forCategories allRecommendations].
    rewrite Hfull. reflexivity. }
  assert (Hpass : recommendationPass (category :: categories)
                    {| allRecommendations := []; fetches := 0 |}
                  = {| allRecommendations := firstn 3 (unread history articles);
                       fetches := 1 |}).
  { unfold recommendationPass.
    cbn [forCategories allRecommendations length fetches].
    change (3 <=? 0)%nat with false. cbv iota. rewrite Hfetch, Hgather, Hfor.
    cbn [allRecommendations]. rewrite Hfull. reflexivity. }
  unfold fetchRecommendations.
  change (recommendationLoop (category :: categories) 3
            {| allRecommendations := []; fetches := 0 |})
    with (recommendationLoop (category :: categories) 2
            (recommendationPass (category :: categories)
               {| allRecommendations := []; fetches := 0 |})).
  rewrite Hpass. cbn [recommendationLoop allRecommendations].
  rewrite Hfull. reflexivity.
Qed.

End DashboardFacts.

(** X23: when every call of [fetchNewsArticles] throws,
    [fetchRecommendations] gives up after 3 calls, one for each attempt
    whatever the number of categories, and returns no recommendation. *)
Theorem X23_fetchRecommendations_all_fail
  (fetchArticles : nat -> option string -> list Article + string)
  (history : list ArticleHistory) (categories : list string) :
  (forall n category, exists text, fetchArticles n category = inr text) ->
  fetchRecommendations fetchArticles history categories
  = {| allRecommendations := []; fetches := 3 |}.
Proof.
  intros Hfail.
  assert (Hpass : forall n,
             recommendationPass fetchArticles history categories
               {| allRecommendations := []; fetches := n |}
             = {| allRecommendations := []; fetches := S n |}).
  { intros n. unfold recommendationPass.
    destruct categories as [|c cs]; cbn [forCategories allRecommendations length fetches].
    - destruct (Hfail n None) as [text Htext]. rewrite Htext. reflexivity.
    - destruct (Hfail n (Some c)) as [text Htext]. rewrite Htext. reflexivity. }
  unfold fetchRecommendations. cbn [recommendationLoop].
  rewrite !Hpass. reflexivity.
Qed.

(** X23 applied to a source whose every call fails, with the three default
    categories of the dashboard. *)
Lemma X23_fetchRecommendations_all_fail_witness :
  fetchRecommendations failing [] ["Technology"; "Business"; "Science"]
  = {| allRecommendations := []; fetches := 3 |}.
Proof.
  apply (X23_fetchRecommendations_all_fail failing []
           ["Technology"; "Business"; "Science"]).
  intros n category. exists "Failed to fetch news. Please try again later.".
  reflexivity.
Defined.

(** X22 applied to a first call that returns four articles, the second of
    which was read already. *)
Lemma X22_fetchRecommendations_first_call_witness :
  let article t :=
    {| title := t; description := "d"; urlToImage := "i";
       article_category := "general"; url := Some "u"; source := "s";
       publishedAt := Some "p" |} in
  let history :=
    [{| hist_id := "1"; hist_title := "b"; hist_category := "general";
        hist_image_url := "i"; hist_description := "d"; hist_read_at := "r" |}] in
  fetchRecommendations
    (fun _ _ => inl [article "a"; article "b"; article "c"; article "d"])
    history ["Technology"; "Sports"]
  = {| allRecommendations := [article "a"; article "c"; article "d"];
       fetches := 1 |}.
Proof.
  cbv zeta.
  apply (X22_fetchRecommendations_first_call
           (fun _ _ =>
              inl [ {| title := "a"; description := "d"; urlToImage := "i";
                       article_category := "general"; url := Some "u"; source := "s";
                       publishedAt := Some "p" |};
                    {| title := "b"; description := "d"; urlToImage := "i";
                       article_category := "general"; url := Some "u"; source := "s";
                       publishedAt := Some "p" |};
                    {| title := "c"; description := "d"; urlToImage := "i";
                       article_category := "general"; url := Some "u"; source := "s";
                       publishedAt := Some "p" |};
                    {| title := "d"; description := "d"; urlToImage := "i";
                       article_category := "general"; url := Some "u"; source := "s";
                       publishedAt := Some "p" |} ])
           [{| hist_id := "1"; hist_title := "b"; hist_category := "general";
               hist_image_url := "i"; hist_description := "d"; hist_read_at := "r" |}]
           "Technology" ["Sports"] _ eq_refl).
  vm_compute. apply le_n.
Defined.
